(** * deepinv blur physics: convolution engine, blur operators, PSF generators

    A shallow embedding of [deepinv/physics/blur/blur.py] and
    [deepinv/physics/generator/blur.py].

    - Real tensors hold exact rationals ([Qc]); complex tensors hold Gaussian
      rationals.  Rounding is not modelled: every statement is about the
      arithmetic the code performs, carried out exactly.
    - A tensor is its four extents plus an element accessor.
    - Python exceptions are the [Err] branch of an error monad.
    - A slice of a tensor is a view: the transposed convolution keeps the one
      buffer it allocates and updates it in place through windows.
    - An object is its attribute dictionary ([gmap string pyval]); reading an
      attribute that was never assigned raises [AttributeError]. *)

From Stdlib Require Import ZArith QArith Qcanon Qround Qabs List Lia Bool Ascii String.
From stdpp Require Import base strings gmap sorting.

Open Scope Qc_scope.
Open Scope nat_scope.

(** ** Exceptions and the error monad

    [NotANumber] is not a Python exception: it marks a floating-point
    division by zero, whose result (NaN or an infinity) is no rational. *)

Inductive error : Type :=
| AssertionError (msg : string)
| AttributeError (attr : string)
| RuntimeError (msg : string)
| IndexError (msg : string)
| ValueError (msg : string)
| NotImplementedError (msg : string)
| TypeError (msg : string)
| UnboundLocalError (var : string)
| ZeroDivisionError
| NotANumber
| Exception_ (msg : string).

Inductive result (A : Type) : Type :=
| Ok (a : A)
| Err (e : error).
Arguments Ok {A} a.
Arguments Err {A} e.

#[global] Instance result_ret : MRet result := @Ok.
#[global] Instance result_bind : MBind result :=
  fun A B f m => match m with Ok a => f a | Err e => Err e end.

Definition is_ok {A} (r : result A) : bool :=
  match r with Ok _ => true | Err _ => false end.

Definition assert_ (b : bool) (msg : string) : result unit :=
  if b then Ok tt else Err (AssertionError msg).

Definition check (b : bool) (e : error) : result unit :=
  if b then Ok tt else Err e.

(** ** Finite sums of scalars *)

Fixpoint sum_n (n : nat) (f : nat -> Qc) : Qc :=
  match n with
  | O => 0%Qc
  | S m => (sum_n m f + f m)%Qc
  end.

(** ** Tensors *)

Record tensor (A : Type) : Type := mkT {
  dB : nat;
  dC : nat;
  dH : nat;
  dW : nat;
  at_ : nat -> nat -> nat -> nat -> A
}.
Arguments mkT {A} dB dC dH dW at_.
Arguments dB {A} t.
Arguments dC {A} t.
Arguments dH {A} t.
Arguments dW {A} t.
Arguments at_ {A} t b c i j.

Definition shape {A} (t : tensor A) : nat * nat * nat * nat :=
  (dB t, dC t, dH t, dW t).

Definition rtensor := tensor Qc.

(** [torch.zeros(shape)] *)
Definition zeros (B C H W : nat) : rtensor :=
  mkT B C H W (fun _ _ _ _ => 0%Qc).

(** The inner product of two tensors, summed over the extents of the first. *)
Definition inner (s t : rtensor) : Qc :=
  sum_n (dB s) (fun b => sum_n (dC s) (fun c =>
    sum_n (dH s) (fun i => sum_n (dW s) (fun j =>
      (at_ s b c i j * at_ t b c i j)%Qc)))).

(** ** Python slices and integer indices *)

(** A bound of a slice on an axis of length [n]: negative bounds count from
    the end, and the result is clamped to [0, n]. *)
Definition py_bound (n : nat) (i : Z) : nat :=
  if (i <? 0)%Z then Z.to_nat (Z.max (i + Z.of_nat n) 0)
  else Z.to_nat (Z.min i (Z.of_nat n)).

Record pyslice : Type := Slice { sl_start : option Z; sl_stop : option Z }.

Definition sl (a b : Z) : pyslice := Slice (Some a) (Some b).
Definition sl_to (b : Z) : pyslice := Slice None (Some b).
Definition sl_from (a : Z) : pyslice := Slice (Some a) None.
Definition sl_all : pyslice := Slice None None.

Definition slice_start (n : nat) (s : pyslice) : nat :=
  match sl_start s with None => 0 | Some a => py_bound n a end.
Definition slice_stop (n : nat) (s : pyslice) : nat :=
  match sl_stop s with None => n | Some b => py_bound n b end.
Definition slice_len (n : nat) (s : pyslice) : nat :=
  slice_stop n s - slice_start n s.

(** An integer index on an axis of length [n]. *)
Definition py_index (n : nat) (i : Z) : result nat :=
  let j := if (i <? 0)%Z then (i + Z.of_nat n)%Z else i in
  if ((0 <=? j)%Z && (j <? Z.of_nat n)%Z)%bool then Ok (Z.to_nat j)
  else Err (IndexError "index out of range").

(** ** Windows: views into a buffer

    [x[:, :, s, t]] does not copy: it denotes a window of the buffer of [x].
    Reading a window yields its current content; [+=] on a window rewrites the
    buffer. *)

Record window : Type := Win { w_h0 : nat; w_hn : nat; w_w0 : nat; w_wn : nat }.

Definition full_window {A} (t : tensor A) : window := Win 0 (dH t) 0 (dW t).

Definition sub_window (w : window) (sh sw : pyslice) : window :=
  Win (w_h0 w + slice_start (w_hn w) sh) (slice_len (w_hn w) sh)
      (w_w0 w + slice_start (w_wn w) sw) (slice_len (w_wn w) sw).

(** [v[:, :, i, t]]: an integer index on the height axis.  The axis is kept
    with extent one, which leaves the broadcasting test of [+=] unchanged. *)
Definition row_window (w : window) (i : Z) (sw : pyslice) : result window :=
  r ← py_index (w_hn w) i;
  Ok (Win (w_h0 w + r) 1 (w_w0 w + slice_start (w_wn w) sw) (slice_len (w_wn w) sw)).

(** [v[:, :, s, j]]: an integer index on the width axis. *)
Definition col_window (w : window) (sh : pyslice) (j : Z) : result window :=
  r ← py_index (w_wn w) j;
  Ok (Win (w_h0 w + slice_start (w_hn w) sh) (slice_len (w_hn w) sh) (w_w0 w + r) 1).

(** [v[:, :, i, j]] *)
Definition cell_window (w : window) (i j : Z) : result window :=
  r ← py_index (w_hn w) i;
  q ← py_index (w_wn w) j;
  Ok (Win (w_h0 w + r) 1 (w_w0 w + q) 1).

Definition read {A} (buf : tensor A) (w : window) : tensor A :=
  mkT (dB buf) (dC buf) (w_hn w) (w_wn w)
      (fun b c i j => at_ buf b c (w_h0 w + i) (w_w0 w + j)).

(** [x[:, :, s, t]] as a value *)
Definition tslice {A} (x : tensor A) (sh sw : pyslice) : tensor A :=
  read x (sub_window (full_window x) sh sw).

(** Broadcasting of the right operand of an in-place operation: an extent of
    the operand must equal the extent of the destination or be one. *)
Definition broadcasts_to (src dst : nat) : bool := (src =? dst) || (src =? 1).
Definition bidx (src k : nat) : nat := if src =? 1 then 0 else k.

Definition in_window (w : window) (i j : nat) : bool :=
  (w_h0 w <=? i) && (i <? w_h0 w + w_hn w) && (w_w0 w <=? j) && (j <? w_w0 w + w_wn w).

(** [buf[window] += rhs], the operand being evaluated before the store. *)
Definition iadd (buf : rtensor) (w : window) (rhs : rtensor) : result rtensor :=
  _ ← check (broadcasts_to (dB rhs) (dB buf) && broadcasts_to (dC rhs) (dC buf)
             && broadcasts_to (dH rhs) (w_hn w) && broadcasts_to (dW rhs) (w_wn w))
            (RuntimeError "The size of tensor a must match the size of tensor b");
  Ok (mkT (dB buf) (dC buf) (dH buf) (dW buf)
        (fun b c i j =>
           if in_window w i j
           then (at_ buf b c i j
                 + at_ rhs (bidx (dB rhs) b) (bidx (dC rhs) c)
                       (bidx (dH rhs) (i - w_h0 w)) (bidx (dW rhs) (j - w_w0 w)))%Qc
           else at_ buf b c i j)).

(** [t.flip(dims=(2,))], [t.flip(dims=(3,))], [t.flip(dims=(2, 3))] *)
Definition flip_h {A} (t : tensor A) : tensor A :=
  mkT (dB t) (dC t) (dH t) (dW t) (fun b c i j => at_ t b c (dH t - 1 - i) j).
Definition flip_w {A} (t : tensor A) : tensor A :=
  mkT (dB t) (dC t) (dH t) (dW t) (fun b c i j => at_ t b c i (dW t - 1 - j)).
Definition flip_hw {A} (t : tensor A) : tensor A := flip_w (flip_h t).

(** [t.sum(2)], [t.sum(3)] and [t.sum(3).sum(2)]; the reduced axis is kept
    with extent one. *)
Definition sum_h (t : rtensor) : rtensor :=
  mkT (dB t) (dC t) 1 (dW t) (fun b c _ j => sum_n (dH t) (fun i => at_ t b c i j)).
Definition sum_w (t : rtensor) : rtensor :=
  mkT (dB t) (dC t) (dH t) 1 (fun b c i _ => sum_n (dW t) (fun j => at_ t b c i j)).
Definition sum_hw (t : rtensor) : rtensor := sum_h (sum_w t).

(** [buf[window] = rhs] *)
Definition assign {A} (buf : tensor A) (w : window) (rhs : tensor A) : result (tensor A) :=
  _ ← check (broadcasts_to (dB rhs) (dB buf) && broadcasts_to (dC rhs) (dC buf)
             && broadcasts_to (dH rhs) (w_hn w) && broadcasts_to (dW rhs) (w_wn w))
            (RuntimeError "shape mismatch in assignment");
  Ok (mkT (dB buf) (dC buf) (dH buf) (dW buf)
        (fun b c i j =>
           if in_window w i j
           then at_ rhs (bidx (dB rhs) b) (bidx (dC rhs) c)
                    (bidx (dH rhs) (i - w_h0 w)) (bidx (dW rhs) (j - w_w0 w))
           else at_ buf b c i j)).

(** ** The torch primitives the engine calls *)

(** The padding policies of the data model, and the strings that name them
    in the code. *)
Inductive padding_mode : Type := Valid | Circular | Reflect | Replicate.

Definition padding_name (p : padding_mode) : string :=
  match p with
  | Valid => "valid" | Circular => "circular"
  | Reflect => "reflect" | Replicate => "replicate"
  end.

(** Source index on an axis of length [n] for position [i] of the axis
    extended by [p] on both sides. *)
Definition circular_src (n p i : nat) : nat := (i + n - p) mod n.
Definition reflect_src (n p i : nat) : nat :=
  if i <? p then p - i
  else if i <? p + n then i - p
  else 2 * n + p - 2 - i.
Definition replicate_src (n p i : nat) : nat :=
  if i <? p then 0
  else if i <? p + n then i - p
  else n - 1.

Definition padded (x : rtensor) (pw ph : nat) (src : nat -> nat -> nat -> nat) : rtensor :=
  mkT (dB x) (dC x) (dH x + 2 * ph) (dW x + 2 * pw)
      (fun b c i j => at_ x b c (src (dH x) ph i) (src (dW x) pw j)).

(** [F.pad(x, (pw, pw, ph, ph), mode=padding, value=0)].  torch knows the
    modes constant, reflect, replicate and circular; circular wraps at most
    once, reflect needs a pad smaller than the axis, and the padded axes of
    the last three modes must not be empty. *)
Definition F_pad (x : rtensor) (pw ph : nat) (mode : string) : result rtensor :=
  if String.eqb mode "circular" then
    _ ← check ((1 <=? dH x) && (1 <=? dW x) && (ph <=? dH x) && (pw <=? dW x))
              (RuntimeError "Padding value causes wrapping around more than once.");
    Ok (padded x pw ph circular_src)
  else if String.eqb mode "reflect" then
    _ ← check ((ph <? dH x) && (pw <? dW x))
              (RuntimeError "Padding size should be less than the corresponding input dimension");
    Ok (padded x pw ph reflect_src)
  else if String.eqb mode "replicate" then
    _ ← check ((1 <=? dH x) && (1 <=? dW x))
              (RuntimeError "Expected non-zero size for the padded dimensions");
    Ok (padded x pw ph replicate_src)
  else if String.eqb mode "constant" then
    Ok (mkT (dB x) (dC x) (dH x + 2 * ph) (dW x + 2 * pw)
          (fun b c i j =>
             if (ph <=? i) && (i <? ph + dH x) && (pw <=? j) && (j <? pw + dW x)
             then at_ x b c (i - ph) (j - pw) else 0%Qc))
  else Err (NotImplementedError "Unrecognised padding mode").

(** [t.expand(-1, C, -1, -1)] and [t.expand(B, -1, -1, -1)] of a tensor whose
    expanded extent is one. *)
Definition expand_C {A} (t : tensor A) (C : nat) : tensor A :=
  mkT (dB t) C (dH t) (dW t) (fun b _ i j => at_ t b 0 i j).
Definition expand_B {A} (t : tensor A) (B : nat) : tensor A :=
  mkT B (dC t) (dH t) (dW t) (fun _ c i j => at_ t 0 c i j).

(** [x.reshape(1, -1, H, W)] of a (B, C, H, W) tensor: the batch axis is
    folded into the channels, row-major. *)
Definition fold_batch {A} (x : tensor A) : result (tensor A) :=
  _ ← check (negb (dH x * dW x =? 0))
            (RuntimeError "cannot reshape tensor of 0 elements: -1 is ambiguous");
  Ok (mkT 1 (dB x * dC x) (dH x) (dW x)
        (fun _ g i j => at_ x (g / dC x) (g mod dC x) i j)).

(** [filter.reshape(B * C, -1, h, w)] of a (B, C, h, w) filter. *)
Definition fold_filter {A} (f : tensor A) : result (tensor A) :=
  _ ← check (negb (dB f * dC f * dH f * dW f =? 0))
            (RuntimeError "cannot reshape tensor of 0 elements: -1 is ambiguous");
  Ok (mkT (dB f * dC f) 1 (dH f) (dW f)
        (fun g _ a d => at_ f (g / dC f) (g mod dC f) a d)).

(** [t.view(B, C, t.size(-2), -1)] of a (1, B * C, H, W) tensor. *)
Definition unfold_batch {A} (t : tensor A) (B C : nat) : tensor A :=
  mkT B C (dH t) (dW t) (fun b c i j => at_ t 0 (b * C + c) i j).

(** [F.conv2d(x, weight, padding='valid', groups=G)] for [x] of shape
    (1, G, H, W) and [weight] of shape (G, 1, h, w): every channel is
    cross-correlated with its own kernel plane. *)
Definition F_conv2d (x weight : rtensor) (G : nat) : result rtensor :=
  _ ← check ((1 <=? G) && (dB x =? 1) && (dC x =? G) && (dB weight =? G) && (dC weight =? 1))
            (RuntimeError "conv2d: channels and groups do not match");
  _ ← check ((1 <=? dH weight) && (1 <=? dW weight)
             && (dH weight <=? dH x) && (dW weight <=? dW x))
            (RuntimeError "Kernel size can't be greater than actual input size");
  Ok (mkT 1 G (dH x - dH weight + 1) (dW x - dW weight + 1)
        (fun n g i j =>
           sum_n (dH weight) (fun a => sum_n (dW weight) (fun d =>
             (at_ x n g (i + a) (j + d) * at_ weight g 0 a d)%Qc)))).

(** [F.conv_transpose2d(y, weight, groups=G)] for [y] of shape (1, G, H, W)
    and [weight] of shape (G, 1, h, w): every input pixel scatters a copy of
    its kernel plane, so output pixel (u, v) gathers y[u - a, v - d] * k[a, d]. *)
Definition F_conv_transpose2d (y weight : rtensor) (G : nat) : result rtensor :=
  _ ← check ((1 <=? G) && (dB y =? 1) && (dC y =? G) && (dB weight =? G) && (dC weight =? 1))
            (RuntimeError "conv_transpose2d: channels and groups do not match");
  _ ← check ((1 <=? dH weight) && (1 <=? dW weight) && (1 <=? dH y) && (1 <=? dW y))
            (RuntimeError "conv_transpose2d: empty input or kernel");
  Ok (mkT 1 G (dH y + dH weight - 1) (dW y + dW weight - 1)
        (fun n g u v =>
           sum_n (dH weight) (fun a => sum_n (dW weight) (fun d =>
             if (a <=? u) && (u - a <? dH y) && (d <=? v) && (v - d <? dW y)
             then (at_ y n g (u - a) (v - d) * at_ weight g 0 a d)%Qc
             else 0%Qc)))).

(** * blur.py *)

(** [extend_filter]: zero-extend a kernel so that both spatial extents are
    odd and at least three. *)
Definition extend_filter (filter : rtensor) : result rtensor :=
  let '(b, c, h, w) := shape filter in
  let '(w_new, offset_w) :=
    if w =? 1 then (3, 1) else if w mod 2 =? 0 then (w + 1, 0) else (w, 0) in
  let '(h_new, offset_h) :=
    if h =? 1 then (3, 1) else if h mod 2 =? 0 then (h + 1, 0) else (h, 0) in
  let out := zeros b c h_new w_new in
  assign out (sub_window (full_window out)
                (sl (Z.of_nat offset_h) (Z.of_nat (h + offset_h)))
                (sl (Z.of_nat offset_w) (Z.of_nat (w + offset_w))))
         filter.

(** The broadcasting prologue shared by [conv] and [conv_transpose]: a
    kernel with one channel (one batch entry) is expanded to the channels
    (batch) of the image. *)
Definition expand_filter (filter : rtensor) (B C : nat) : result rtensor :=
  filter ← (if negb (dC filter =? C)
            then _ ← assert_ (dC filter =? 1) ""; Ok (expand_C filter C)
            else Ok filter);
  if negb (dB filter =? B)
  then _ ← assert_ (dB filter =? 1) ""; Ok (expand_B filter B)
  else Ok filter.

(** [conv(x, filter, padding)] *)
Definition conv (x filter : rtensor) (padding : string) : result rtensor :=
  let '(B, C, H, W) := shape x in
  let '(b, c, h, w) := shape filter in
  filter ← expand_filter filter B C;
  x ← (if negb (String.eqb padding "valid")
       then let ph := (h - 1) / 2 in
            let pw := (w - 1) / 2 in
            F_pad x pw ph padding
       else Ok x);
  let '(B, C, H, W) := shape x in
  x ← fold_batch x;
  filter ← fold_filter filter;
  output ← F_conv2d x filter (B * C);
  Ok (unfold_batch output B C).

(** [conv_transpose(y, filter, padding)].  [x] is the buffer returned by the
    transposed convolution, [out] the window [x[:, :, ph:-ph, pw:-pw]] of
    it; every [+=] stores into [x] through [out] and reads its operand from
    the buffer as it is at that moment.  A padding that no branch names
    leaves [out] unbound. *)
Definition conv_transpose (y filter : rtensor) (padding : string)
  : result rtensor :=
  let '(B, C, H, W) := shape y in
  let '(b, c, h, w) := shape filter in
  let ph := Z.of_nat ((h - 1) / 2) in
  let pw := Z.of_nat ((w - 1) / 2) in
  filter ← expand_filter filter B C;
  y ← fold_batch y;
  filter ← fold_filter filter;
  x ← F_conv_transpose2d y filter (B * C);
  let x := unfold_batch x B C in
  let out := sub_window (full_window x) (sl ph (- ph)) (sl pw (- pw)) in
  if String.eqb padding "valid" then Ok x
  else if String.eqb padding "zero" then Ok (read x out)
  else if String.eqb padding "circular" then
      (* sides *)
      x ← iadd x (sub_window out (sl_to ph) sl_all)
                 (tslice x (sl_from (- ph)) (sl pw (- pw)));
      x ← iadd x (sub_window out (sl_from (- ph)) sl_all)
                 (tslice x (sl_to ph) (sl pw (- pw)));
      x ← iadd x (sub_window out sl_all (sl_to pw))
                 (tslice x (sl ph (- ph)) (sl_from (- pw)));
      x ← iadd x (sub_window out sl_all (sl_from (- pw)))
                 (tslice x (sl ph (- ph)) (sl_to pw));
      (* corners *)
      x ← iadd x (sub_window out (sl_to ph) (sl_to pw))
                 (tslice x (sl_from (- ph)) (sl_from (- pw)));
      x ← iadd x (sub_window out (sl_from (- ph)) (sl_from (- pw)))
                 (tslice x (sl_to ph) (sl_to pw));
      x ← iadd x (sub_window out (sl_to ph) (sl_from (- pw)))
                 (tslice x (sl_from (- ph)) (sl_to pw));
      x ← iadd x (sub_window out (sl_from (- ph)) (sl_to pw))
                 (tslice x (sl_to ph) (sl_from (- pw)));
      Ok (read x out)
  else if String.eqb padding "reflect" then
      (* sides *)
      x ← iadd x (sub_window out (sl 1 (1 + ph)) sl_all)
                 (flip_h (tslice x (sl_to ph) (sl pw (- pw))));
      x ← iadd x (sub_window out (sl (- ph - 1) (-1)) sl_all)
                 (flip_h (tslice x (sl_from (- ph)) (sl pw (- pw))));
      x ← iadd x (sub_window out sl_all (sl 1 (1 + pw)))
                 (flip_w (tslice x (sl ph (- ph)) (sl_to pw)));
      x ← iadd x (sub_window out sl_all (sl (- pw - 1) (-1)))
                 (flip_w (tslice x (sl ph (- ph)) (sl_from (- pw))));
      (* corners *)
      x ← iadd x (sub_window out (sl 1 (1 + ph)) (sl 1 (1 + pw)))
                 (flip_hw (tslice x (sl_to ph) (sl_to pw)));
      x ← iadd x (sub_window out (sl (- ph - 1) (-1)) (sl (- pw - 1) (-1)))
                 (flip_hw (tslice x (sl_from (- ph)) (sl_from (- pw))));
      x ← iadd x (sub_window out (sl (- ph - 1) (-1)) (sl 1 (1 + pw)))
                 (flip_hw (tslice x (sl_from (- ph)) (sl_to pw)));
      x ← iadd x (sub_window out (sl 1 (1 + ph)) (sl (- pw - 1) (-1)))
                 (flip_hw (tslice x (sl_to ph) (sl_from (- pw))));
      Ok (read x out)
  else if String.eqb padding "replicate" then
      (* sides *)
      d ← row_window out 0 sl_all;
      x ← iadd x d (sum_h (tslice x (sl_to ph) (sl pw (- pw))));
      d ← row_window out (-1) sl_all;
      x ← iadd x d (sum_h (tslice x (sl_from (- ph)) (sl pw (- pw))));
      d ← col_window out sl_all 0;
      x ← iadd x d (sum_w (tslice x (sl ph (- ph)) (sl_to pw)));
      d ← col_window out sl_all (-1);
      x ← iadd x d (sum_w (tslice x (sl ph (- ph)) (sl_from (- pw))));
      (* corners *)
      d ← cell_window out 0 0;
      x ← iadd x d (sum_hw (tslice x (sl_to ph) (sl_to pw)));
      d ← cell_window out (-1) (-1);
      x ← iadd x d (sum_hw (tslice x (sl_from (- ph)) (sl_from (- pw))));
      d ← cell_window out (-1) 0;
      x ← iadd x d (sum_hw (tslice x (sl_from (- ph)) (sl_to pw)));
      d ← cell_window out 0 (-1);
      x ← iadd x d (sum_hw (tslice x (sl_to ph) (sl_from (- pw))));
      Ok (read x out)
  else Err (UnboundLocalError "out").

(** ** Complex scalars and tensors *)

Record complex : Type := mkC { re : Qc; im : Qc }.

Definition C0 : complex := mkC 0 0.
Definition C1 : complex := mkC 1 0.
Definition of_real (r : Qc) : complex := mkC r 0.
Definition Cadd (z w : complex) : complex := mkC (re z + re w) (im z + im w).
Definition Csub (z w : complex) : complex := mkC (re z - re w) (im z - im w).
Definition Cmul (z w : complex) : complex :=
  mkC (re z * re w - im z * im w) (re z * im w + im z * re w).
Definition Cconj (z : complex) : complex := mkC (re z) (- im z).
Definition Cscale (r : Qc) (z : complex) : complex := mkC (r * re z) (r * im z).
Definition Cnorm2 (z : complex) : Qc := re z * re z + im z * im z.
Definition Cdiv (z w : complex) : complex :=
  Cscale (/ Cnorm2 w) (Cmul z (Cconj w)).

Fixpoint Cpow (z : complex) (n : nat) : complex :=
  match n with O => C1 | S m => Cmul z (Cpow z m) end.

Fixpoint Csum_n (n : nat) (f : nat -> complex) : complex :=
  match n with
  | O => C0
  | S m => Cadd (Csum_n m f) (f m)
  end.

Definition ctensor := tensor complex.

Definition tmap {A B} (f : A -> B) (t : tensor A) : tensor B :=
  mkT (dB t) (dC t) (dH t) (dW t) (fun b c i j => f (at_ t b c i j)).

(** Broadcasting of an elementwise binary operation: two extents are
    compatible when they are equal or one of them is one. *)
Definition bdim (m n : nat) : option nat :=
  if m =? n then Some m else if m =? 1 then Some n else if n =? 1 then Some m else None.

Definition broadcast2 {A B C} (f : A -> B -> C) (s : tensor A) (t : tensor B)
  : result (tensor C) :=
  match bdim (dB s) (dB t), bdim (dC s) (dC t), bdim (dH s) (dH t), bdim (dW s) (dW t) with
  | Some b, Some c, Some h, Some w =>
      Ok (mkT b c h w (fun n k i j =>
            f (at_ s (bidx (dB s) n) (bidx (dC s) k) (bidx (dH s) i) (bidx (dW s) j))
              (at_ t (bidx (dB t) n) (bidx (dC t) k) (bidx (dH t) i) (bidx (dW t) j))))
  | _, _, _, _ => Err (RuntimeError "The size of tensor a must match the size of tensor b")
  end.

(** [torch.roll(t, shifts=(sh, sw), dims=(2, 3))] for shifts [-ph], [-pw]:
    position [i] receives the entry that was at [i + ph], cyclically. *)
Definition roll_back {A} (t : tensor A) (ph pw : nat) : tensor A :=
  mkT (dB t) (dC t) (dH t) (dW t)
      (fun b c i j => at_ t b c ((i + ph) mod dH t) ((j + pw) mod dW t)).

(** [x[:, :, ::f, ::f]] *)
Definition strided {A} (x : tensor A) (f : Z) : result (tensor A) :=
  _ ← check (0 <? f)%Z (ValueError "step must be greater than zero");
  let s := Z.to_nat f in
  Ok (mkT (dB x) (dC x) ((dH x + s - 1) / s) ((dW x + s - 1) / s)
        (fun b c i j => at_ x b c (i * s) (j * s))).

(** [x[:, :, ::f, ::f] = y] *)
Definition assign_strided {A} (x : tensor A) (f : Z) (y : tensor A) : result (tensor A) :=
  _ ← check (0 <? f)%Z (ValueError "step must be greater than zero");
  let s := Z.to_nat f in
  _ ← check (broadcasts_to (dB y) (dB x) && broadcasts_to (dC y) (dC x)
             && broadcasts_to (dH y) ((dH x + s - 1) / s)
             && broadcasts_to (dW y) ((dW x + s - 1) / s))
            (RuntimeError "shape mismatch in assignment");
  Ok (mkT (dB x) (dC x) (dH x) (dW x)
        (fun b c i j =>
           if (i mod s =? 0) && (j mod s =? 0)
           then at_ y (bidx (dB y) b) (bidx (dC y) c) (bidx (dH y) (i / s)) (bidx (dW y) (j / s))
           else at_ x b c i j)).

(** ** Python values and objects *)

Inductive pyval : Type :=
| VNone
| VStr (s : string)
| VInt (n : Z)
| VTuple (l : list nat)
| VTensor (t : rtensor)          (* a plain torch.Tensor *)
| VParameter (t : rtensor)       (* a torch.nn.Parameter, which is a Tensor *)
| VComplex (t : ctensor).

Definition is_Parameter (v : pyval) : bool :=
  match v with VParameter _ => true | _ => false end.
Definition is_Tensor (v : pyval) : bool :=
  match v with VTensor _ | VParameter _ | VComplex _ => true | _ => false end.
Definition is_None (v : pyval) : bool :=
  match v with VNone => true | _ => false end.
Definition is_str (v : pyval) (s : string) : bool :=
  match v with VStr s' => String.eqb s' s | _ => false end.

Definition as_tensor (v : pyval) : result rtensor :=
  match v with
  | VTensor t | VParameter t => Ok t
  | _ => Err (TypeError "a real tensor is expected")
  end.
Definition as_ctensor (v : pyval) : result ctensor :=
  match v with
  | VComplex t => Ok t
  | VTensor t | VParameter t => Ok (tmap of_real t)
  | _ => Err (TypeError "a tensor is expected")
  end.
Definition as_str (v : pyval) : result string :=
  match v with VStr s => Ok s | _ => Err (TypeError "a str is expected") end.
Definition as_int (v : pyval) : result Z :=
  match v with VInt n => Ok n | _ => Err (TypeError "an int is expected") end.
Definition as_tuple (v : pyval) : result (list nat) :=
  match v with VTuple l => Ok l | _ => Err (TypeError "a tuple is expected") end.

(** [torch.nn.Parameter(v, requires_grad=False)] *)
Definition nn_Parameter (v : pyval) : result pyval :=
  match v with
  | VTensor t | VParameter t => Ok (VParameter t)
  | VComplex t => Ok (VComplex t)
  | _ => Err (TypeError "a tensor is expected")
  end.

(** [self.name] and [self.name = v] on the attribute dictionary of [self]. *)
Definition getattr (self : gmap string pyval) (name : string) : result pyval :=
  match self !! name with
  | Some v => Ok v
  | None => Err (AttributeError name)
  end.
Definition setattr (self : gmap string pyval) (name : string) (v : pyval)
  : gmap string pyval :=
  <[name := v]> self.

(** The last two entries of a size tuple, [img_size[-2:]]. *)
Definition last_two (l : list nat) : result (nat * nat) :=
  match rev l with
  | w :: h :: _ => Ok (h, w)
  | _ => Err (RuntimeError "the size tuple has fewer than two entries")
  end.

(** The double nearest to 0.3, the literal of [gaussian_blur]. *)
Definition f64_0_3 : Qc := Q2Qc (5404319552844595 # 18014398509481984).

(** [int(q)]: truncation toward zero. *)
Definition py_int (q : Qc) : Z :=
  if Qle_bool 0 q then Qfloor q else Qceiling q.

Definition Qc_of_Z (z : Z) : Qc := Q2Qc (inject_Z z).
Definition Qc_of_nat (n : nat) : Qc := Qc_of_Z (Z.of_nat n).
Definition Qc_abs (q : Qc) : Qc := Q2Qc (Qabs q).
Definition Qc_leb (p q : Qc) : bool := Qle_bool p q.
Definition Qc_ltb (p q : Qc) : bool := negb (Qle_bool q p).
Definition Qc_max (p q : Qc) : Qc := if Qc_leb p q then q else p.

Definition total_sum (t : rtensor) : Qc :=
  sum_n (dB t) (fun b => sum_n (dC t) (fun c =>
    sum_n (dH t) (fun i => sum_n (dW t) (fun j => at_ t b c i j)))).

(** [bilinear_filter(factor)] *)
Definition bilinear_filter (factor : Z) : rtensor :=
  let n := Z.to_nat (2 * factor) in
  let x i := ((Qc_of_Z (- factor) + Q2Qc (1 # 2) + Qc_of_nat i) / Qc_of_Z factor)%Qc in
  let w i := (1 - Qc_abs (x i))%Qc in
  let outer := mkT 1 1 n n (fun _ _ i j => (w i * w j)%Qc) in
  tmap (fun v => (v / total_sum outer)%Qc) outer.

(** [bicubic_filter(factor)] *)
Definition bicubic_filter (factor : Z) : rtensor :=
  let n := Z.to_nat (4 * factor) in
  let a := (- Q2Qc (1 # 2))%Qc in
  let x i := Qc_abs ((Qc_of_Z (- 2 * factor) + Q2Qc (1 # 2) + Qc_of_nat i) / Qc_of_Z factor)%Qc in
  let ind (b : bool) : Qc := if b then 1%Qc else 0%Qc in
  let w i :=
    (((a + Qc_of_Z 2) * x i ^ 3 - (a + Qc_of_Z 3) * x i ^ 2 + 1) * ind (Qc_leb (x i) 1)
     + (a * x i ^ 3 - Qc_of_Z 5 * a * x i ^ 2 + Qc_of_Z 8 * a * x i - Qc_of_Z 4 * a)
       * ind (Qc_ltb 1 (x i)) * ind (Qc_ltb (x i) (Qc_of_Z 2)))%Qc in
  let outer := mkT 1 1 n n (fun _ _ i j => (w i * w j)%Qc) in
  tmap (fun v => (v / total_sum outer)%Qc) outer.

(** ** Auxiliary notions for the adjoint of the padding

    These are notions of the proofs, not of the code: a range test, the
    invariant of the in-place updates of [conv_transpose] (outside the
    window [out] the buffer is the one it started from), and the transposes
    of the three padding maps on one axis of length [n] padded by [p]. *)

Definition in_range (a n u : nat) : bool := (a <=? u) && (u <? a + n).

Definition halo_kept (x0 buf : rtensor) (out : window) : Prop :=
  shape buf = shape x0 /\
  forall b c i j, in_window out i j = false -> at_ buf b c i j = at_ x0 b c i j.

Definition unpad_circular (n p : nat) (g : nat -> Qc) (i : nat) : Qc :=
  (g (p + i)%nat + (if i <? p then g (n + p + i)%nat else 0)
   + (if n - p <=? i then g (i - (n - p))%nat else 0))%Qc.

Definition unpad_reflect (n p : nat) (g : nat -> Qc) (i : nat) : Qc :=
  (g (p + i)%nat + (if (1 <=? i) && (i <? 1 + p) then g (p - i)%nat else 0)
   + (if (n - p - 1 <=? i) && (i <? n - 1) then g (2 * n + p - 2 - i)%nat else 0))%Qc.

Definition unpad_replicate (n p : nat) (g : nat -> Qc) (i : nat) : Qc :=
  (g (p + i)%nat + (if i =? 0 then sum_n p g else 0)
   + (if i =? n - 1 then sum_n p (fun s => g (n + p + s)%nat) else 0))%Qc.

(** The pairs of padding names under which [conv_transpose] undoes what
    [conv] does: each of the four policies with itself, and the constant
    padding of [F.pad] with the crop that [conv_transpose] calls zero. *)
Definition adjoint_names : list (string * string) :=
  [("valid", "valid"); ("circular", "circular"); ("reflect", "reflect");
   ("replicate", "replicate"); ("constant", "zero")].


Section Physics.

(** ** What the model leaves uninterpreted

    The transcendental functions of the array runtime, its random source and
    the base classes that are not part of the two modules are taken as given.
    No statement below assumes anything about the values they produce. *)

(** [omega n] stands for exp(-2 pi i / n), the root of unity of a transform
    of length [n]. *)
Variable omega : nat -> complex.
(** [torch.exp], [torch.sqrt] on reals, [torch.sqrt] and [torch.exp] on
    complex numbers. *)
Variable exp_ : Qc -> Qc.
Variable sqrt_ : Qc -> Qc.
Variable Csqrt_ : complex -> complex.
Variable Cexp_ : complex -> complex.
(** [torchvision.transforms.functional.rotate] with bilinear interpolation. *)
Variable rotate : rtensor -> Qc -> rtensor.
(** The random source: entry (i, j) of the [k]-th array drawn by
    [torch.randn] and by [torch.rand]. *)
Variable randn : nat -> nat -> nat -> Qc.
Variable rand : nat -> nat -> nat -> Qc.
(** The attributes that [LinearPhysics.__init__] leaves on a fresh object,
    and the iterative least-squares proximal step of that class. *)
Variable base_attrs : gmap string pyval.
Variable LinearPhysics_prox_l2 :
  gmap string pyval -> rtensor -> rtensor -> Qc -> result rtensor.

(** ** Discrete Fourier transforms *)

(** [fft.fft2(x)] *)
Definition fft2 (x : ctensor) : ctensor :=
  mkT (dB x) (dC x) (dH x) (dW x)
      (fun b c k l =>
         Csum_n (dH x) (fun m => Csum_n (dW x) (fun n =>
           Cmul (at_ x b c m n)
                (Cmul (Cpow (omega (dH x)) (k * m)) (Cpow (omega (dW x)) (l * n)))))).

(** [fft.ifft2(X)] *)
Definition ifft2 (X : ctensor) : ctensor :=
  mkT (dB X) (dC X) (dH X) (dW X)
      (fun b c m n =>
         Cscale (/ Qc_of_nat (dH X * dW X))
           (Csum_n (dH X) (fun k => Csum_n (dW X) (fun l =>
              Cmul (at_ X b c k l)
                   (Cmul (Cpow (Cconj (omega (dH X))) (k * m))
                         (Cpow (Cconj (omega (dW X))) (l * n))))))).

(** [fft.rfft2(x)]: the columns 0 .. W/2 of the full transform. *)
Definition rfft2 (x : ctensor) : ctensor :=
  let X := fft2 x in mkT (dB X) (dC X) (dH X) (dW X / 2 + 1) (at_ X).

(** [filter_fft(filter, img_size, real_fft)] *)
Definition filter_fft (filter : rtensor) (img_size : list nat) (real_fft : bool)
  : result ctensor :=
  let ph := (dH filter - 1) / 2 in
  let pw := (dW filter - 1) / 2 in
  '(H, W) ← last_two img_size;
  let filt2 := zeros (dB filter) (dC filter) H W in
  filt2 ← assign filt2
            (sub_window (full_window filt2)
               (sl_to (Z.of_nat (dH filter))) (sl_to (Z.of_nat (dW filter))))
            filter;
  let filt2 := roll_back filt2 ph pw in
  Ok (if real_fft then rfft2 (tmap of_real filt2) else fft2 (tmap of_real filt2)).

(** [gaussian_blur(sigma=(sx, sy), angle)] *)
Definition gaussian_blur (sx sy : Qc) (angle : Qc) : rtensor :=
  let s := Qc_max sx sy in
  let c := py_int (s / f64_0_3 + 1)%Qc in
  let k_size := Z.to_nat (2 * c + 1) in
  let filt := mkT 1 1 k_size k_size
                (fun _ _ i j =>
                   exp_ (- (((Qc_of_nat i - Qc_of_Z c) / sx) ^ 2
                            + ((Qc_of_nat j - Qc_of_Z c) / sy) ^ 2) / Qc_of_Z 2)%Qc) in
  let filt := rotate filt angle in
  tmap (fun v => (v / total_sum filt)%Qc) filt.

(** ** The blur operator *)

(** [Blur.__init__(params, padding, device)] *)
Definition Blur_init (params : pyval) (padding device : string)
  : result (gmap string pyval) :=
  let self := base_attrs in
  let self := setattr self "padding" (VStr padding) in
  let self := setattr self "device" (VStr device) in
  let self := if is_Parameter params then setattr self "params" params else self in
  if is_Tensor params
  then p ← getattr self "params";
       p ← nn_Parameter p;
       Ok (setattr self "params" p)
  else Ok self.

(** [Blur.A(x)] *)
Definition Blur_A (self : gmap string pyval) (x : rtensor) : result rtensor :=
  filter ← getattr self "filter";
  padding ← getattr self "padding";
  filter ← as_tensor filter;
  padding ← as_str padding;
  conv x filter padding.

(** [Blur.A_adjoint(y)] *)
Definition Blur_A_adjoint (self : gmap string pyval) (y : rtensor) : result rtensor :=
  filter ← getattr self "filter";
  padding ← getattr self "padding";
  filter ← as_tensor filter;
  padding ← as_str padding;
  conv_transpose y filter padding.

(** ** The downsampling operator *)

(** [Downsampling.__init__(img_size, params, factor, device, padding)] *)
Definition Downsampling_init (img_size : list nat) (params : pyval) (factor : Z)
    (device padding : string) : result (gmap string pyval) :=
  let self := base_attrs in
  let self := setattr self "factor" (VInt factor) in
  let self := setattr self "imsize" (VTuple img_size) in
  let self := setattr self "padding" (VStr padding) in
  let self := if is_Parameter params then setattr self "params" params else self in
  self ← (if is_Tensor params then
            p ← getattr self "params";
            p ← nn_Parameter p;
            Ok (setattr self "params" p)
          else if is_None params then
            Ok (setattr self "params" params)
          else if is_str params "gaussian" then
            Ok (setattr self "params"
                  (VParameter (gaussian_blur (Qc_of_Z factor) (Qc_of_Z factor) 0)))
          else if is_str params "bilinear" then
            Ok (setattr self "params" (VParameter (bilinear_filter factor)))
          else if is_str params "bicubic" then
            Ok (setattr self "params" (VParameter (bicubic_filter factor)))
          else Err (Exception_ "The chosen downsampling filter doesn't exist"));
  p ← getattr self "params";
  if negb (is_None p) then
    filter ← as_tensor p;
    Fh ← filter_fft filter img_size false;
    let self := setattr self "Fh" (VComplex Fh) in
    let Fhc := tmap Cconj Fh in
    Fh2 ← broadcast2 Cmul Fhc Fh;
    let self := setattr self "Fhc" (VComplex Fhc) in
    let self := setattr self "Fh2" (VComplex Fh2) in
    Ok self
  else Ok self.

(** [Downsampling.A(x)] *)
Definition Downsampling_A (self : gmap string pyval) (x : rtensor) : result rtensor :=
  p ← getattr self "params";
  x ← (if negb (is_None p) then
         filter ← as_tensor p;
         padding ← getattr self "padding";
         padding ← as_str padding;
         conv x filter padding
       else Ok x);
  factor ← getattr self "factor";
  factor ← as_int factor;
  strided x factor.

(** [Downsampling.A_adjoint(y)]; [imsize] is a (C, H, W) tuple. *)
Definition Downsampling_A_adjoint (self : gmap string pyval) (y : rtensor)
  : result rtensor :=
  imsize ← getattr self "imsize";
  imsize ← as_tuple imsize;
  x ← match imsize with
      | [C; H; W] => Ok (zeros (dB y) C H W)
      | _ => Err (RuntimeError "the canvas is not a 4D tensor")
      end;
  factor ← getattr self "factor";
  factor ← as_int factor;
  x ← assign_strided x factor y;
  p ← getattr self "params";
  if negb (is_None p) then
    filter ← as_tensor p;
    padding ← getattr self "padding";
    padding ← as_str padding;
    conv_transpose x filter padding
  else Ok x.

(** [splits(a, sf)] followed by [torch.mean(., dim=-1)].  [torch.chunk]
    cuts an axis of length n into pieces of ceil(n / sf) entries; stacking
    and concatenating the pieces needs them to be of one size.  Entry (i, j)
    of the mean averages the entries (i + qh * c, j + qw * d) of [a] over
    the pieces. *)
Definition splits_mean (a : ctensor) (sf : Z) : result ctensor :=
  _ ← check (0 <? sf)%Z (RuntimeError "chunk expects chunks to be greater than 0");
  let s := Z.to_nat sf in
  let c := (dH a + s - 1) / s in
  let d := (dW a + s - 1) / s in
  let nh := if c =? 0 then 1 else (dH a + c - 1) / c in
  let nw := if d =? 0 then 1 else (dW a + d - 1) / d in
  _ ← check ((c * nh =? dH a) && (d * nw =? dW a))
            (RuntimeError "stack expects each tensor to be equal size");
  Ok (mkT (dB a) (dC a) c d
        (fun b k i j =>
           Cscale (/ Qc_of_nat (nh * nw))
             (Csum_n nw (fun qw => Csum_n nh (fun qh =>
                at_ a b k (i + qh * c) (j + qw * d)))))).

(** [t.repeat(1, 1, sf, sf)] *)
Definition repeat_hw {A} (t : tensor A) (sf : Z) : tensor A :=
  let s := Z.to_nat sf in
  mkT (dB t) (dC t) (dH t * s) (dW t * s)
      (fun b c i j => at_ t b c (i mod dH t) (j mod dW t)).

(** The closed formula of [Downsampling.prox_l2], given [z_hat]. *)
Definition prox_l2_closed_form (self : gmap string pyval) (z_hat : rtensor) (gamma : Qc)
  : result rtensor :=
  let Fz_hat := fft2 (tmap of_real z_hat) in
  Fh ← getattr self "Fh";
  Fh ← as_ctensor Fh;
  prod ← broadcast2 Cmul Fh Fz_hat;
  factor ← getattr self "factor";
  factor ← as_int factor;
  top ← splits_mean prod factor;
  Fh2 ← getattr self "Fh2";
  Fh2 ← as_ctensor Fh2;
  below ← splits_mean Fh2 factor;
  let below := tmap (fun v => Cadd v (of_real (1 / gamma))) below in
  Fhc ← getattr self "Fhc";
  Fhc ← as_ctensor Fhc;
  quot ← broadcast2 Cdiv top below;
  rc ← broadcast2 Cmul Fhc (repeat_hw quot factor);
  let r := tmap re (ifft2 rc) in
  diff ← broadcast2 Qcminus z_hat r;
  Ok (tmap (fun v => (v * gamma)%Qc) diff).

(** [z_hat = adjoint(y) + z / gamma] *)
Definition prox_z_hat (adj z : rtensor) (gamma : Qc) : result rtensor :=
  _ ← check (negb (Qc_eq_bool gamma 0)) ZeroDivisionError;
  broadcast2 Qcplus adj (tmap (fun v => ((1 / gamma) * v)%Qc) z).

(** [Downsampling.prox_l2(z, y, gamma, use_fft)] *)
Definition Downsampling_prox_l2 (self : gmap string pyval) (z y : rtensor) (gamma : Qc)
    (use_fft : bool) : result rtensor :=
  closed ← (if use_fft
            then padding ← getattr self "padding"; Ok (is_str padding "circular")
            else Ok false);
  if (closed : bool) then
    adj ← Downsampling_A_adjoint self y;
    z_hat ← prox_z_hat adj z gamma;
    prox_l2_closed_form self z_hat gamma
  else LinearPhysics_prox_l2 self z y gamma.

(** The frequency-domain blur that [filter_fft] is made for: multiply the
    transform of the image by the response of the kernel and transform
    back. *)
Definition fft_blur (x filter : rtensor) : result rtensor :=
  Fh ← filter_fft filter [dC x; dH x; dW x] false;
  prod ← broadcast2 Cmul (fft2 (tmap of_real x)) Fh;
  Ok (tmap re (ifft2 prod)).


(** * generator/blur.py *)

(** The doubles that the Python literals and [torch.pi] denote. *)
Definition f64_pi : Qc := Q2Qc (884279719003555 # 281474976710656).
Definition sq3 : Qc := Q2Qc (3900231685776981 # 2251799813685248).
Definition sq5 : Qc := Q2Qc (629397181890197 # 281474976710656).
Definition sq6 : Qc := Q2Qc (2757880273211543 # 1125899906842624).
Definition sq7 : Qc := Q2Qc (2978851154656373 # 1125899906842624).
Definition sq8 : Qc := Q2Qc (6369051672525773 # 2251799813685248).
Definition sq10 : Qc := Q2Qc (7120816245988179 # 2251799813685248).
Definition sq12 : Qc := Q2Qc (3900231685776981 # 1125899906842624).
Definition sq14 : Qc := Q2Qc (8425463406411593 # 2251799813685248).

Definition qz (n : Z) : Qc := Qc_of_Z n.

Definition r2 (x y : Qc) : Qc := x ^ 2 + y ^ 2.

(** [define_zernike()]: the list [Z] of 38 functions, [Z[0]] to [Z[37]]. *)
Definition define_zernike : list (Qc -> Qc -> Qc) :=
  [ (fun x y => 1);
    (fun x y => 1);
    (fun x y => qz 2 * x);
    (fun x y => qz 2 * y);
    (fun x y => sq3 * (qz 2 * r2 x y - 1));
    (fun x y => qz 2 * sq6 * x * y);
    (fun x y => sq6 * (x ^ 2 - y ^ 2));
    (fun x y => sq8 * y * (qz 3 * r2 x y - qz 2));
    (fun x y => sq8 * x * (qz 3 * r2 x y - qz 2));
    (fun x y => sq8 * y * (qz 3 * x ^ 2 - y ^ 2));
    (fun x y => sq8 * x * (x ^ 2 - qz 3 * y ^ 2));
    (fun x y => sq5 * (qz 6 * r2 x y ^ 2 - qz 6 * r2 x y + 1));
    (fun x y => sq10 * (x ^ 2 - y ^ 2) * (qz 4 * r2 x y - qz 3));
    (fun x y => qz 2 * sq10 * x * y * (qz 4 * r2 x y - qz 3));
    (fun x y => sq10 * (r2 x y ^ 2 - qz 8 * x ^ 2 * y ^ 2));
    (fun x y => qz 4 * sq10 * x * y * (x ^ 2 - y ^ 2));
    (fun x y => sq12 * x * (qz 10 * r2 x y ^ 2 - qz 12 * r2 x y + qz 3));
    (fun x y => sq12 * y * (qz 10 * r2 x y ^ 2 - qz 12 * r2 x y + qz 3));
    (fun x y => sq12 * x * (x ^ 2 - qz 3 * y ^ 2) * (qz 5 * r2 x y - qz 4));
    (fun x y => sq12 * y * (qz 3 * x ^ 2 - y ^ 2) * (qz 5 * r2 x y - qz 4));
    (fun x y => sq12 * x * (qz 16 * x ^ 4 - qz 20 * x ^ 2 * r2 x y + qz 5 * r2 x y ^ 2));
    (fun x y => sq12 * y * (qz 16 * y ^ 4 - qz 20 * y ^ 2 * r2 x y + qz 5 * r2 x y ^ 2));
    (fun x y => sq7 * (qz 20 * r2 x y ^ 3 - qz 30 * r2 x y ^ 2 + qz 12 * r2 x y - 1));
    (fun x y => qz 2 * sq14 * x * y * (qz 15 * r2 x y ^ 2 - qz 20 * r2 x y + qz 6));
    (fun x y => sq14 * (x ^ 2 - y ^ 2) * (qz 15 * r2 x y ^ 2 - qz 20 * r2 x y + qz 6));
    (fun x y => qz 4 * sq14 * x * y * (x ^ 2 - y ^ 2) * (qz 6 * r2 x y - qz 5));
    (fun x y => sq14 * (qz 8 * x ^ 4 - qz 8 * x ^ 2 * r2 x y + r2 x y ^ 2)
                * (qz 6 * r2 x y - qz 5));
    (fun x y => sq14 * x * y
                * (qz 32 * x ^ 4 - qz 32 * x ^ 2 * r2 x y + qz 6 * r2 x y ^ 2));
    (fun x y => sq14 * (qz 32 * x ^ 6 - qz 48 * x ^ 4 * r2 x y
                        + qz 18 * x ^ 2 * r2 x y ^ 2 - r2 x y ^ 3));
    (fun x y => qz 4 * y
                * (qz 35 * r2 x y ^ 3 - qz 60 * r2 x y ^ 2 + qz 30 * r2 x y + qz 10));
    (fun x y => qz 4 * x
                * (qz 35 * r2 x y ^ 3 - qz 60 * r2 x y ^ 2 + qz 30 * r2 x y + qz 10));
    (fun x y => qz 4 * y * (qz 3 * x ^ 2 - y ^ 2)
                * (qz 21 * r2 x y ^ 2 - qz 30 * r2 x y + qz 10));
    (fun x y => qz 4 * x * (x ^ 2 - qz 3 * y ^ 2)
                * (qz 21 * r2 x y ^ 2 - qz 30 * r2 x y + qz 10));
    (fun x y => qz 4 * (qz 7 * r2 x y - qz 6)
                * (qz 4 * x ^ 2 * y * (x ^ 2 - y ^ 2)
                   + y * (r2 x y ^ 2 - qz 8 * x ^ 2 * y ^ 2)));
    (fun x y => qz 4 * (qz 7 * r2 x y - qz 6)
                * (x * (r2 x y ^ 2 - qz 8 * x ^ 2 * y ^ 2)
                   - qz 4 * x * y ^ 2 * (x ^ 2 - y ^ 2)));
    (fun x y => qz 8 * x ^ 2 * y * (qz 3 * r2 x y ^ 2 - qz 16 * x ^ 2 * y ^ 2)
                + qz 4 * y * (x ^ 2 - y ^ 2) * (r2 x y ^ 2 - qz 16 * x ^ 2 * y ^ 2));
    (fun x y => qz 4 * x * (x ^ 2 - y ^ 2) * (r2 x y ^ 2 - qz 16 * x ^ 2 * y ^ 2)
                - qz 8 * x * y ^ 2 * (qz 3 * r2 x y ^ 2 - qz 16 * x ^ 2 * y ^ 2));
    (fun x y => qz 3 * (qz 70 * r2 x y ^ 4 - qz 140 * r2 x y ^ 3
                        + qz 90 * r2 x y ^ 2 - qz 20 * r2 x y + 1))
  ]%Qc.

(** [int(s)] for the decimal forms: an optional sign followed by digits. *)
Definition digit_of (c : ascii) : option Z :=
  let n := nat_of_ascii c in
  if (48 <=? n) && (n <=? 57) then Some (Z.of_nat (n - 48)) else None.

Fixpoint parse_digits (s : string) (acc : Z) : option Z :=
  match s with
  | EmptyString => Some acc
  | String c r =>
      match digit_of c with
      | Some d => parse_digits r (10 * acc + d)
      | None => None
      end
  end.

Definition int_of_string (s : string) : result Z :=
  let digits r :=
    match r with
    | EmptyString => None
    | _ => parse_digits r 0
    end in
  let v :=
    match s with
    | String "-" r => Z.opp <$> digits r
    | String "+" r => digits r
    | _ => digits s
    end in
  match v with
  | Some z => Ok z
  | None => Err (ValueError "invalid literal for int() with base 10")
  end.

(** [param[1:]] *)
Definition tail_string (s : string) : string :=
  match s with EmptyString => EmptyString | String _ r => r end.

Fixpoint mapM {A B} (f : A -> result B) (l : list A) : result (list B) :=
  match l with
  | [] => Ok []
  | a :: r => b ← f a; bs ← mapM f r; Ok (b :: bs)
  end.

(** [np.max(l)] *)
Definition np_max (l : list Z) : result Z :=
  match l with
  | [] => Err (ValueError "zero-size array to reduction operation maximum")
  | a :: r => Ok (fold_left Z.max r a)
  end.

(** [torch.linspace(a, b, n)][i] *)
Definition linspace (a b : Qc) (n i : nat) : Qc :=
  if n =? 1 then a else (a + Qc_of_nat i * (b - a) / Qc_of_nat (n - 1))%Qc.

(** [cart2pol(x, y)] *)
Definition cart2pol (x y : Qc) : Qc := sqrt_ (x ^ 2 + y ^ 2)%Qc.

(** [bump_function(x, a, b)], entry by entry. *)
Definition bump_function (x a b : Qc) : Qc :=
  if Qc_leb (Qc_abs x) a then 1%Qc
  else if Qc_ltb a (Qc_abs x) && Qc_ltb (Qc_abs x) (a + b)%Qc
       then (exp_ (- (1 / (1 - ((Qc_abs x - a) / b) ^ 2))) / exp_ (- (1)))%Qc
       else 0%Qc.

(** [PSFGenerator.__init__(shape)]: the kernel size, after the Dirac mass
    has been stored at its centre. *)
Definition PSFGenerator_init (shape : list nat) : result (nat * nat) :=
  '(k0, k1) ← match rev shape with
              | k1 :: k0 :: _ => Ok (k0, k1)
              | _ => Err (IndexError "tuple index out of range")
              end;
  _ ← check ((1 <=? k0) && (1 <=? k1)) (IndexError "index 0 is out of bounds");
  Ok (k0, k1).

Record diffraction_generator : Type := {
  dg_shape : list nat;
  dg_kernel_size : nat * nat;
  dg_list_param : list string;
  dg_fc : Qc;
  dg_max_zernike_amplitude : option Qc;  (* None: the attribute is not assigned *)
  dg_pupil_size : nat * nat;
  dg_rho : nat -> nat -> Qc;        (* the (P0, P1) array of radii *)
  dg_pad_pre : nat * nat;
  dg_pad_post : nat * nat;
  dg_index_params : list Z;
  dg_n_zernike : nat;
  dg_Z : rtensor                    (* (P0, P1, n), as a (1, P0, P1, n) tensor *)
}.

(** The loop that fills [self.Z]: plane [k] is the polynomial numbered
    [index_params[k]], looked up in the list as Python indexes a list. *)
Fixpoint fill_zernike (Zt : rtensor) (XX YY : nat -> nat -> Qc)
    (k : nat) (index_params : list Z) : result rtensor :=
  match index_params with
  | [] => Ok Zt
  | p :: rest =>
      r ← py_index (length define_zernike) p;
      let f := nth r define_zernike (fun _ _ => 0%Qc) in
      let Zt := mkT (dB Zt) (dC Zt) (dH Zt) (dW Zt)
                    (fun b i j k' => if k' =? k then f (XX i j) (YY i j)
                                     else at_ Zt b i j k') in
      fill_zernike Zt XX YY (S k) rest
  end.

(** [DiffractionBlurGenerator.__init__].  The base class assigns the keyword
    arguments it is given: [list_param], [fc] and [pupil_size].  The
    parameter [max_zernike_amplitude] is not among them and is assigned
    nowhere, so the object has no attribute of that name. *)
Definition Diffraction_init (shape : list nat) (list_param : list string) (fc : Qc)
    (max_zernike_amplitude : Qc) (pupil_size : nat * nat)
  : result diffraction_generator :=
  kernel_size ← PSFGenerator_init shape;
  let pupil_size := (Nat.max (fst pupil_size) (fst kernel_size),
                     Nat.max (snd pupil_size) (snd kernel_size)) in
  let half := Q2Qc (1 # 2) in
  let lin_x := linspace (- half) half (fst pupil_size) in
  let lin_y := linspace (- half) half (snd pupil_size) in
  let XX (i j : nat) := (lin_x i / fc)%Qc in
  let YY (i j : nat) := (lin_y j / fc)%Qc in
  let rho (i j : nat) := cart2pol (XX i j) (YY i j) in
  let pad_pre := ((fst pupil_size - fst kernel_size + 1) / 2,
                  (snd pupil_size - snd kernel_size + 1) / 2) in
  let pad_post := ((fst pupil_size - fst kernel_size) / 2,
                   (snd pupil_size - snd kernel_size) / 2) in
  index_params ← mapM (fun param => int_of_string (tail_string param)) list_param;
  let index_params := merge_sort Z.le index_params in
  m ← np_max index_params;
  _ ← assert_ (m <=? 38)%Z "The Zernike polynomial index can not be exceed 38";
  let n_zernike := length index_params in
  let Zt := zeros 1 (fst pupil_size) (snd pupil_size) n_zernike in
  Zt ← fill_zernike Zt XX YY 0 index_params;
  Ok {| dg_shape := shape; dg_kernel_size := kernel_size;
        dg_list_param := list_param; dg_fc := fc;
        dg_max_zernike_amplitude := None;
        dg_pupil_size := pupil_size; dg_rho := rho;
        dg_pad_pre := pad_pre; dg_pad_post := pad_post;
        dg_index_params := index_params; dg_n_zernike := n_zernike;
        dg_Z := Zt |}.

(** [kernel / torch.sum(kernel, dim=(-2, -1), keepdim=True)]: every plane
    is divided by the sum of its entries.  A plane whose sum is zero has no
    quotient. *)
Definition spatial_sum (t : rtensor) (b c : nat) : Qc :=
  sum_n (dH t) (fun i => sum_n (dW t) (fun j => at_ t b c i j)).

Fixpoint forallb_n (n : nat) (p : nat -> bool) : bool :=
  match n with
  | O => true
  | S m => forallb_n m p && p m
  end.

Definition normalize_spatial (kernel : rtensor) : result rtensor :=
  _ ← check (forallb_n (dB kernel) (fun b => forallb_n (dC kernel) (fun c =>
               negb (Qc_eq_bool (spatial_sum kernel b c) 0))))
            NotANumber;
  Ok (mkT (dB kernel) (dC kernel) (dH kernel) (dW kernel)
        (fun b c i j => (at_ kernel b c i j / spatial_sum kernel b c)%Qc)).

(** [torch.fft.fftshift(t)] and [torch.fft.ifftshift(t)] of a
    (B, P, Q) array: all three axes are rotated by half their length. *)
Definition fftshift {A} (t : tensor A) : tensor A :=
  mkT (dB t) (dC t) (dH t) (dW t)
      (fun b c i j => at_ t ((b + dB t - dB t / 2) mod dB t) c
                         ((i + dH t - dH t / 2) mod dH t)
                         ((j + dW t - dW t / 2) mod dW t)).
Definition ifftshift {A} (t : tensor A) : tensor A :=
  mkT (dB t) (dC t) (dH t) (dW t)
      (fun b c i j => at_ t ((b + dB t / 2) mod dB t) c
                         ((i + dH t / 2) mod dH t)
                         ((j + dW t / 2) mod dW t)).

(** [generate_coeff()]: the array drawn by the [draw]-th call of
    [torch.rand] is centred and scaled by [self.max_zernike_amplitude]; the
    result is given entry by entry. *)
Definition generate_coeff (g : diffraction_generator) (draw : nat)
  : result (nat -> nat -> Qc) :=
  batch_size ← match dg_shape g with
               | b :: _ => Ok b
               | [] => Err (IndexError "tuple index out of range")
               end;
  let coeff := rand draw in
  amplitude ← match dg_max_zernike_amplitude g with
              | Some a => Ok a
              | None => Err (AttributeError "max_zernike_amplitude")
              end;
  Ok (fun b k => (qz 2 * (coeff b k - Q2Qc (1 # 2)) * amplitude)%Qc).

(** [DiffractionBlurGenerator.step(batch_size)] up to the cropped intensity
    [psf3].  The arrays of shape (B, P1, P0) carry a unit channel axis from
    the start, so that [unsqueeze(1)] is the identity. *)
Definition Diffraction_intensity (g : diffraction_generator) (draw : nat) (batch_size : nat)
  : result (diffraction_generator * nat * rtensor) :=
  '(c3, k0, k1) ← match rev (dg_shape g) with
                  | k1 :: k0 :: c3 :: _ => Ok (c3, k0, k1)
                  | _ => Err (IndexError "tuple index out of range")
                  end;
  let g := {| dg_shape := [batch_size; c3; k0; k1];
              dg_kernel_size := dg_kernel_size g; dg_list_param := dg_list_param g;
              dg_fc := dg_fc g;
              dg_max_zernike_amplitude := dg_max_zernike_amplitude g;
              dg_pupil_size := dg_pupil_size g; dg_rho := dg_rho g;
              dg_pad_pre := dg_pad_pre g; dg_pad_post := dg_pad_post g;
              dg_index_params := dg_index_params g; dg_n_zernike := dg_n_zernike g;
              dg_Z := dg_Z g |} in
  coeff ← generate_coeff g draw;
  let '(P0, P1) := dg_pupil_size g in
  let pupil1 := mkT batch_size 1 P1 P0
                    (fun b _ j i => sum_n (dg_n_zernike g)
                                      (fun k => (at_ (dg_Z g) 0 i j k * coeff b k)%Qc)) in
  let pupil2 := tmap (fun p => Cexp_ (mkC 0 (- (qz 2 * f64_pi * p))%Qc)) pupil1 in
  let indicator := mkT 1 1 P0 P1 (fun _ _ i j => bump_function (dg_rho g i j) 1 1) in
  pupil3 ← broadcast2 (fun z r => Cscale r z) pupil2 indicator;
  let psf1 := ifftshift (fft2 (fftshift pupil3)) in
  let psf2 := tmap (fun z => re (Cmul z (Cconj z))) psf1 in
  let psf3 := tslice psf2
                (sl (Z.of_nat (fst (dg_pad_pre g))) (Z.of_nat (P0 - fst (dg_pad_post g))))
                (sl (Z.of_nat (snd (dg_pad_pre g))) (Z.of_nat (P1 - snd (dg_pad_post g)))) in
  Ok (g, c3, psf3).

(** [DiffractionBlurGenerator.step(batch_size)]: the intensity is
    normalised and broadcast over the channels. *)
Definition Diffraction_step (g : diffraction_generator) (draw : nat) (batch_size : nat)
  : result (diffraction_generator * rtensor) :=
  '(g, c3, psf3) ← Diffraction_intensity g draw batch_size;
  psf ← normalize_spatial psf3;
  Ok (g, expand_C psf c3).

(** ** The motion blur generator *)

Record motion_generator : Type := {
  mg_shape : list nat;
  mg_kernel_size : nat * nat;
  mg_l : Qc;
  mg_sigma : Qc;
  mg_n_steps : nat
}.

(** [MotionBlurGenerator.__init__(shape, l, sigma, n_steps)] *)
Definition Motion_init (shape : list nat) (l sigma : Qc) (n_steps : nat)
  : result motion_generator :=
  kernel_size ← PSFGenerator_init shape;
  Ok {| mg_shape := shape; mg_kernel_size := kernel_size;
        mg_l := l; mg_sigma := sigma; mg_n_steps := n_steps |}.

(** [matern_kernel(diff, sigma, l)] *)
Definition matern_kernel (g : motion_generator) (diff : rtensor) (sigma l : option Qc)
  : rtensor :=
  let sigma := match sigma with None => mg_sigma g | Some s => s end in
  let l := match l with None => mg_l g | Some v => v end in
  tmap (fun d =>
          let fraction := (sq5 * Qc_abs d / l)%Qc in
          (sigma ^ 2 * (1 + fraction + fraction ^ 2 / qz 3) * exp_ (- fraction))%Qc)
       diff.

(** [torch.fft.rfft(v)] along the last axis of a (B, n) array, held as a
    (1, 1, B, n) tensor: the entries 0 .. n/2 of the transform of each row. *)
Definition rfft (v : rtensor) : result ctensor :=
  _ ← check (1 <=? dW v) (RuntimeError "Invalid number of data points (0) specified");
  Ok (mkT (dB v) (dC v) (dH v) (dW v / 2 + 1)
        (fun b c r k =>
           Csum_n (dW v) (fun t => Cmul (of_real (at_ v b c r t))
                                        (Cpow (omega (dW v)) (k * t))))).

(** [torch.fft.irfft(X)] along the last axis: a spectrum of m entries is
    read as the first half of a Hermitian spectrum of 2 (m - 1) entries. *)
Definition irfft (X : ctensor) : result rtensor :=
  let N := 2 * (dW X - 1) in
  _ ← check (1 <=? N) (RuntimeError "Invalid number of data points (0) specified");
  Ok (mkT (dB X) (dC X) (dH X) N
        (fun b c r t =>
           (/ Qc_of_nat N
            * re (Csum_n N (fun k =>
                    Cmul (if k <? dW X then at_ X b c r k
                          else Cconj (at_ X b c r (N - k)))
                         (Cpow (Cconj (omega N)) (k * t)))))%Qc)).

(** [n // (2 * torch.pi)]: the floor of the quotient of [n] by the double
    884279719003555 / 2^47 that [2 * torch.pi] denotes. *)
Definition floordiv_two_pi (n : nat) : nat :=
  Z.to_nat (Z.of_nat n * 2 ^ 47 / 884279719003555).

(** [t[:, torch.arange(m).type(torch.int)]]: the columns 0 .. m - 1. *)
Definition take_columns {A} (t : tensor A) (m : nat) : result (tensor A) :=
  _ ← check (m <=? dW t) (IndexError "index is out of bounds for dimension 1");
  Ok (mkT (dB t) (dC t) (dH t) m (at_ t)).

(** [torch.randn(batch_size, n)], the [draw]-th array of the random source,
    and [torch.linspace(-torch.pi, torch.pi, n)[None]]; both are held as
    (1, 1, rows, n) tensors. *)
Definition white_noise (draw batch_size n : nat) : rtensor :=
  mkT 1 1 batch_size n (fun _ _ b t => randn draw b t).
Definition time_grid (n : nat) : rtensor :=
  mkT 1 1 1 n (fun _ _ _ t => linspace (- f64_pi) f64_pi n t).

(** [f_matern(sigma, l)] *)
Definition f_matern (g : motion_generator) (draw : nat) (sigma l : option Qc)
  : result rtensor :=
  batch_size ← match mg_shape g with
               | b :: _ => Ok b
               | [] => Err (IndexError "tuple index out of range")
               end;
  let vec := white_noise draw batch_size (mg_n_steps g) in
  let time := time_grid (mg_n_steps g) in
  let kernel := matern_kernel g time sigma l in
  kernel_fft ← rfft kernel;
  vec_fft ← rfft vec;
  prod ← broadcast2 Cmul vec_fft (tmap Csqrt_ kernel_fft);
  signal ← irfft prod;
  take_columns signal (floordiv_two_pi (mg_n_steps g)).

(** Modelled from the spec: [histogramdd] is not part of the two modules.
    The points of a trajectory are binned into the [k0] x [k1] grid over
    [-1, 1] x [-1, 1]; a point outside the domain is in no bin. *)
Definition bin_of (v : Qc) (n : nat) : option nat :=
  if Qc_leb (- (1)) v && Qc_leb v 1
  then Some (Nat.min (Z.to_nat (Qfloor ((v + 1) / qz 2 * Qc_of_nat n)%Qc)) (n - 1))
  else None.

Fixpoint count_n (n : nat) (p : nat -> bool) : nat :=
  match n with
  | O => 0
  | S m => count_n m p + (if p m then 1 else 0)
  end.

Definition histogramdd (xs ys : nat -> Qc) (m : nat) (k0 k1 : nat) (i j : nat) : Qc :=
  Qc_of_nat (count_n m (fun t =>
    match bin_of (xs t) k0, bin_of (ys t) k1 with
    | Some a, Some b => (a =? i) && (b =? j)
    | _, _ => false
    end)).

(** [f - torch.mean(f, dim=1, keepdim=True)] for a (B, m) array. *)
Definition demean (f : rtensor) : rtensor :=
  mkT (dB f) (dC f) (dH f) (dW f)
      (fun b c r t => (at_ f b c r t
                       - sum_n (dW f) (fun s => at_ f b c r s) / Qc_of_nat (dW f))%Qc).

(** [MotionBlurGenerator.step(batch_size, sigma, l)] up to the concatenated
    histograms; the two calls of [f_matern] consume the draws [draw] and
    [draw + 1]. *)
Definition Motion_histograms (g : motion_generator) (draw : nat) (batch_size : nat)
    (sigma l : option Qc) : result (motion_generator * rtensor) :=
  shape ← match mg_shape g, rev (mg_shape g) with
          | s0 :: _, k1 :: k0 :: rest =>
              if negb (s0 =? 1) then Ok [batch_size; 1; k0; k1]
              else match rest with
                   | c3 :: _ => Ok [batch_size; c3; k0; k1]
                   | [] => Err (IndexError "tuple index out of range")
                   end
          | _, _ => Err (IndexError "tuple index out of range")
          end;
  let g := {| mg_shape := shape; mg_kernel_size := mg_kernel_size g;
              mg_l := mg_l g; mg_sigma := mg_sigma g; mg_n_steps := mg_n_steps g |} in
  f_x ← f_matern g draw sigma l;
  f_y ← f_matern g (S draw) sigma l;
  let tx := demean f_x in
  let ty := demean f_y in
  let '(k0, k1) := mg_kernel_size g in
  Ok (g, mkT (dH tx) 1 k0 k1
           (fun b _ i j =>
              histogramdd (at_ tx 0 0 b) (at_ ty 0 0 b) (dW tx) k0 k1 i j)).

(** [MotionBlurGenerator.step(batch_size, sigma, l)] *)
Definition Motion_step (g : motion_generator) (draw : nat) (batch_size : nat)
    (sigma l : option Qc) : result (motion_generator * rtensor) :=
  '(g, kernel) ← Motion_histograms g draw batch_size sigma l;
  kernel ← normalize_spatial kernel;
  Ok (g, kernel).

(** ** The named filters of the downsampling operator *)

Inductive preset : Type := Gaussian | Bilinear | Bicubic.

Definition preset_name (p : preset) : string :=
  match p with
  | Gaussian => "gaussian" | Bilinear => "bilinear" | Bicubic => "bicubic"
  end.

(** ** The examples of the class documentation *)

(** [x = torch.zeros((1, 1, H, W)); x[:, :, pi, pj] = 1] *)
Definition delta_image (H W pi pj : nat) : rtensor :=
  mkT 1 1 H W (fun _ _ i j => if (i =? pi) && (j =? pj) then 1%Qc else 0%Qc).

(** [torch.ones((1, 1, h, w)) * v] *)
Definition const_kernel (h w : nat) (v : Qc) : rtensor :=
  mkT 1 1 h w (fun _ _ _ _ => v).

(** The roots of unity that are Gaussian rationals: exp(-2 pi i / n) for
    n = 1, 2 and 4. *)
Definition gauss_root (n : nat) : complex :=
  match n with
  | 2 => mkC (- (1)) 0
  | 4 => mkC 0 (- (1))
  | _ => C1
  end.

(** The entries of the averaging kernel. *)
Definition quarter : Qc := Q2Qc (1 # 4).

(** The motion generators of the concrete runs: with seven steps a
    trajectory has one point, which de-meaning moves to the origin; with six
    it has none; with a thousand, the default, it has 159. *)
Definition motion_steps (n_steps : nat) : motion_generator :=
  {| mg_shape := [1; 1; 1]; mg_kernel_size := (1, 1);
     mg_l := Q2Qc (3 # 10); mg_sigma := Q2Qc (1 # 4); mg_n_steps := n_steps |}.

(** Stand-ins for what the model leaves uninterpreted, for statements about
    one concrete run whose outcome does not depend on them. *)
Definition unit_exp (q : Qc) : Qc := 1%Qc.
Definition same_sqrt (q : Qc) : Qc := q.
Definition same_Csqrt (z : complex) : complex := z.
Definition unit_Cexp (z : complex) : complex := C1.
Definition no_rotation (t : rtensor) (angle : Qc) : rtensor := t.
Definition zero_noise (k i j : nat) : Qc := 0%Qc.
Definition no_base_prox (self : gmap string pyval) (z y : rtensor) (gamma : Qc)
  : result rtensor :=
  Err (NotImplementedError "LinearPhysics.prox_l2").

(** * Properties *)

(** ** The error monad *)

Lemma bind_Ok {A B} (m : result A) (f : A -> result B) (b : B) :
  m ≫= f = Ok b -> exists a, m = Ok a /\ f a = Ok b.
Proof. destruct m as [a|e]; simpl; [eauto | discriminate]. Qed.

Lemma check_Ok (b : bool) (e : error) : check b e = Ok tt -> b = true.
Proof. destruct b; [reflexivity | discriminate]. Qed.

Lemma check_true (e : error) : check true e = Ok tt.
Proof. reflexivity. Qed.

Lemma forallb_n_spec (n : nat) (p : nat -> bool) :
  forallb_n n p = true <-> forall i, i < n -> p i = true.
Proof.
  induction n as [|n IH]; simpl.
  - split; [intros _ i Hi; lia | reflexivity].
  - rewrite andb_true_iff, IH. split.
    + intros [Hlt Hn] i Hi. destruct (Nat.eq_dec i n) as [->|Hne]; [exact Hn|].
      apply Hlt. lia.
    + intros H. split; [intros i Hi; apply H; lia | apply H; lia].
Qed.

Ltac inv_bind H :=
  let a := fresh "v" in
  let Ha := fresh "E" in
  apply bind_Ok in H; destruct H as (a & Ha & H).

Ltac inv_check H :=
  match type of H with
  | check ?b ?e ≫= _ = Ok _ =>
      let Hb := fresh "Hc" in
      destruct b eqn:Hb; [|discriminate H];
      change (check true e) with (Ok tt) in H;
      cbn [mbind result_bind] in H
  end.

(** ** Shapes through the engine *)

Lemma not_valid_name (p : padding_mode) :
  p <> Valid -> String.eqb (padding_name p) "valid" = false.
Proof. destruct p; [congruence | reflexivity..]. Qed.

Lemma F_pad_shape (x xp : rtensor) (pw ph : nat) (mode : string) :
  F_pad x pw ph mode = Ok xp ->
  dB xp = dB x /\ dC xp = dC x /\ dH xp = dH x + 2 * ph /\ dW xp = dW x + 2 * pw.
Proof.
  unfold F_pad. intros H.
  repeat match type of H with
         | (if ?c then _ else _) = _ => destruct c
         end;
    try discriminate H;
    try inv_check H;
    injection H as <-; simpl; auto.
Qed.

Lemma expand_filter_shape (filter f' : rtensor) (B C : nat) :
  expand_filter filter B C = Ok f' ->
  dB f' = B /\ dC f' = C /\ dH f' = dH filter /\ dW f' = dW filter.
Proof.
  unfold expand_filter, assert_. intros H.
  destruct (dC filter =? C) eqn:EC; simpl in H.
  - apply Nat.eqb_eq in EC.
    destruct (dB filter =? B) eqn:EB; simpl in H.
    + apply Nat.eqb_eq in EB. injection H as <-. auto.
    + destruct (dB filter =? 1); simpl in H; [|discriminate].
      injection H as <-. simpl. auto.
  - destruct (dC filter =? 1); simpl in H; [|discriminate].
    destruct (dB filter =? B) eqn:EB; simpl in H.
    + apply Nat.eqb_eq in EB. injection H as <-. simpl. auto.
    + destruct (dB filter =? 1); simpl in H; [|discriminate].
      injection H as <-. simpl. auto.
Qed.

(** The extents of the result of [conv] under a padding other than valid:
    the image grows by twice the half-width of the kernel, and the valid
    correlation takes off the width of the kernel less one. *)
Lemma conv_shape (x k y : rtensor) (p : padding_mode) :
  p <> Valid ->
  conv x k (padding_name p) = Ok y ->
  dB y = dB x /\ dC y = dC x /\
  dH k <= dH x + 2 * ((dH k - 1) / 2) /\ 1 <= dH k /\
  dW k <= dW x + 2 * ((dW k - 1) / 2) /\ 1 <= dW k /\
  dH y = dH x + 2 * ((dH k - 1) / 2) - dH k + 1 /\
  dW y = dW x + 2 * ((dW k - 1) / 2) - dW k + 1.
Proof.
  intros Hp H. unfold conv, shape in H.
  rewrite (not_valid_name p Hp) in H. simpl negb in H. cbv iota in H.
  inv_bind H. apply expand_filter_shape in E as (Eb & Ec & Eh & Ew).
  inv_bind H. apply F_pad_shape in E as (Pb & Pc & Ph & Pw).
  inv_bind H. unfold fold_batch in E. inv_check E. injection E as <-.
  inv_bind H. unfold fold_filter in E. inv_check E. injection E as <-.
  inv_bind H. unfold F_conv2d in E.
  inv_check E. inv_check E. injection E as <-.
  injection H as <-. simpl.
  repeat match goal with
         | Hc : (_ && _) = true |- _ => apply andb_true_iff in Hc; destruct Hc
         | Hc : (_ <=? _) = true |- _ => apply Nat.leb_le in Hc
         end.
  rewrite Pb, Pc, Ph, Pw, Eh, Ew in *. repeat split; auto; lia.
Qed.

(** ** The documented point source *)

(** C3 -- The 16 x 16 image that is zero except for a 1 at (8, 8), blurred
    by [conv] with the 2 x 2 kernel of entries 1/4 under circular padding:
    the result has the value 1/4 at the four pixels (7, 7), (7, 8), (8, 7)
    and (8, 8) and 0 at every other pixel of its 15 x 15 grid. *)
Theorem conv_point_source_averaging_kernel :
  exists y,
    conv (delta_image 16 16 8 8) (const_kernel 2 2 quarter) "circular" = Ok y /\
    shape y = (1, 1, 15, 15) /\
    forall i j, i < dH y -> j < dW y ->
      at_ y 0 0 i j
      = if ((i =? 7) || (i =? 8)) && ((j =? 7) || (j =? 8)) then quarter else 0%Qc.
Proof.
  eexists. split; [reflexivity|]. split; [reflexivity|].
  intros i j Hi Hj.
  apply Qc_eq_bool_correct.
  revert j Hj. apply forallb_n_spec. revert i Hi. apply forallb_n_spec.
  vm_compute. reflexivity.
Qed.

(** ** An even kernel loses a row and a column *)

(** C4 -- [conv] never calls [extend_filter]: it pads the image by
    (h - 1) / 2 rounded down on each side and correlates with the kernel as
    given.  Under every padding other than valid, whenever it returns, a
    kernel of even height makes the output one row shorter than the image,
    and a kernel of even width one column narrower. *)
Theorem conv_even_kernel_shrinks (x k y : rtensor) (p : padding_mode) :
  p <> Valid ->
  conv x k (padding_name p) = Ok y ->
  (Nat.even (dH k) = true -> dH y + 1 = dH x) /\
  (Nat.even (dW k) = true -> dW y + 1 = dW x).
Proof.
  intros Hp H.
  destruct (conv_shape x k y p Hp H) as (_ & _ & Hh & Hh1 & Hw & Hw1 & -> & ->).
  split; intros He; apply Nat.even_spec in He as [m Hm]; rewrite Hm in *.
  - replace ((2 * m - 1) / 2) with (m - 1) in *
      by (apply Nat.div_unique with 1; lia).
    lia.
  - replace ((2 * m - 1) / 2) with (m - 1) in *
      by (apply Nat.div_unique with 1; lia).
    lia.
Qed.

(** With an odd kernel the output has the extents of the image. *)
Lemma conv_odd_kernel_same_size (x k y : rtensor) (p : padding_mode) :
  p <> Valid ->
  conv x k (padding_name p) = Ok y ->
  (Nat.odd (dH k) = true -> dH y = dH x) /\
  (Nat.odd (dW k) = true -> dW y = dW x).
Proof.
  intros Hp H.
  destruct (conv_shape x k y p Hp H) as (_ & _ & Hh & Hh1 & Hw & Hw1 & -> & ->).
  split; intros He; apply Nat.odd_spec in He as [m Hm]; rewrite Hm in *.
  - replace ((2 * m + 1 - 1) / 2) with m in *
      by (apply Nat.div_unique with 0; lia).
    lia.
  - replace ((2 * m + 1 - 1) / 2) with m in *
      by (apply Nat.div_unique with 0; lia).
    lia.
Qed.

(** ** The transposed convolution on the documented kernel *)

(** C1 -- On the example of the class documentation (a 16 x 16 image with
    one white pixel, the 2 x 2 averaging kernel) [conv] returns a
    measurement [y] under each of the three paddings that extend the image,
    the inner product of [conv x] with [y] is 1/4, and [conv_transpose] of
    that measurement raises: the window [x[:, :, 0:-0, 0:-0]] is empty, and
    the first strip added to it has 16 rows, or the row 0 it indexes does
    not exist.  There is no tensor to pair with the image, so the adjoint
    identity has no right-hand side. *)
Theorem conv_transpose_fails_on_documented_kernel :
  let x := delta_image 16 16 8 8 in
  let k := const_kernel 2 2 quarter in
  (exists y, conv x k "circular" = Ok y /\ inner y y = quarter /\
     conv_transpose y k "circular"
     = Err (RuntimeError "The size of tensor a must match the size of tensor b")) /\
  (exists y, conv x k "reflect" = Ok y /\ inner y y = quarter /\
     conv_transpose y k "reflect"
     = Err (RuntimeError "The size of tensor a must match the size of tensor b")) /\
  (exists y, conv x k "replicate" = Ok y /\ inner y y = quarter /\
     conv_transpose y k "replicate" = Err (IndexError "index out of range")).
Proof.
  cbv zeta. repeat split.
  - eexists. split; [reflexivity|]. split; [|reflexivity].
    apply Qc_eq_bool_correct. vm_compute. reflexivity.
  - eexists. split; [reflexivity|]. split; [|reflexivity].
    apply Qc_eq_bool_correct. vm_compute. reflexivity.
  - eexists. split; [reflexivity|]. split; [|reflexivity].
    apply Qc_eq_bool_correct. vm_compute. reflexivity.
Qed.

(** ** The blur operator *)

Lemma Blur_init_attrs (params : pyval) (padding device : string)
    (self : gmap string pyval) (name : string) :
  Blur_init params padding device = Ok self ->
  name <> "padding" -> name <> "device" -> name <> "params" ->
  self !! name = base_attrs !! name.
Proof.
  unfold Blur_init, setattr, getattr. intros H Hp Hd Hq.
  destruct (is_Tensor params); destruct (is_Parameter params).
  - rewrite lookup_insert_eq in H. simpl in H.
    inv_bind H. injection H as <-.
    rewrite !lookup_insert_ne by congruence. reflexivity.
  - rewrite !lookup_insert_ne in H by congruence.
    destruct (base_attrs !! "params"); simpl in H; [|discriminate].
    inv_bind H. injection H as <-.
    rewrite !lookup_insert_ne by congruence. reflexivity.
  - injection H as <-. rewrite !lookup_insert_ne by congruence. reflexivity.
  - injection H as <-. rewrite !lookup_insert_ne by congruence. reflexivity.
Qed.

(** C2 -- Whatever [Blur] is constructed with, [A] and [A_adjoint] read
    [self.filter], which the constructor never assigns (it stores the kernel
    as [self.params]): both raise [AttributeError] instead of returning
    [conv(x, k, pad)] and [conv_transpose(y, k, pad)]. *)
Theorem Blur_apply_reads_unassigned_filter
    (params : pyval) (padding device : string) (self : gmap string pyval)
    (x y : rtensor) :
  base_attrs !! "filter" = None ->
  Blur_init params padding device = Ok self ->
  Blur_A self x = Err (AttributeError "filter") /\
  Blur_A_adjoint self y = Err (AttributeError "filter").
Proof.
  intros Hb H.
  assert (Hf : self !! "filter" = None).
  { rewrite (Blur_init_attrs _ _ _ _ "filter" H) by congruence. exact Hb. }
  unfold Blur_A, Blur_A_adjoint, getattr. rewrite Hf. split; reflexivity.
Qed.

(** ** Plain tensors as filter arguments *)

Lemma Downsampling_init_plain (img_size : list nat) (params : pyval) (factor : Z)
    (device padding : string) :
  base_attrs !! "params" = None ->
  is_Tensor params = true -> is_Parameter params = false ->
  Downsampling_init img_size params factor device padding
  = Err (AttributeError "params").
Proof.
  intros Hb Ht Hp. unfold Downsampling_init, setattr, getattr.
  rewrite Ht, Hp. rewrite !lookup_insert_ne by congruence. rewrite Hb.
  reflexivity.
Qed.

Lemma Blur_init_plain (params : pyval) (padding device : string) :
  base_attrs !! "params" = None ->
  is_Tensor params = true -> is_Parameter params = false ->
  Blur_init params padding device = Err (AttributeError "params").
Proof.
  intros Hb Ht Hp. unfold Blur_init, setattr, getattr.
  rewrite Ht, Hp. rewrite !lookup_insert_ne by congruence. rewrite Hb.
  reflexivity.
Qed.

Lemma Downsampling_init_only (img_size : list nat) (params : pyval) (factor : Z)
    (device padding : string) :
  base_attrs !! "params" = None ->
  is_ok (Downsampling_init img_size params factor device padding) = true ->
  is_Parameter params = true \/ params = VNone \/
  exists p, params = VStr (preset_name p).
Proof.
  intros Hb H.
  destruct (is_Parameter params) eqn:Hp; [left; reflexivity|right].
  destruct (is_Tensor params) eqn:Ht.
  { rewrite Downsampling_init_plain in H by assumption. discriminate. }
  unfold Downsampling_init in H. rewrite Ht, Hp in H.
  destruct params as [|s| | | | |]; try discriminate; [left; reflexivity|right].
  unfold is_None, is_str in H.
  destruct (String.eqb s "gaussian") eqn:E1.
  { apply String.eqb_eq in E1. exists Gaussian. subst s. reflexivity. }
  destruct (String.eqb s "bilinear") eqn:E2.
  { apply String.eqb_eq in E2. exists Bilinear. subst s. reflexivity. }
  destruct (String.eqb s "bicubic") eqn:E3.
  { apply String.eqb_eq in E3. exists Bicubic. subst s. reflexivity. }
  discriminate.
Qed.

Lemma Blur_init_not_plain (params : pyval) (padding device : string) :
  is_Tensor params = false \/ is_Parameter params = true ->
  is_ok (Blur_init params padding device) = true.
Proof.
  intros H. unfold Blur_init, setattr, getattr.
  destruct (is_Parameter params) eqn:Hp.
  - destruct params; try discriminate Hp. cbn [is_Tensor].
    rewrite lookup_insert_eq. reflexivity.
  - destruct H as [H|H]; [|discriminate H]. rewrite H. reflexivity.
Qed.

(** C10 (amended) -- With a plain tensor (a tensor that is no
    [torch.nn.Parameter]) as the filter argument both constructors raise
    [AttributeError]: the second test, [isinstance(params, torch.Tensor)],
    reads [self.params], which only the first test, true of a
    [torch.nn.Parameter] alone, assigns.  [Downsampling] completes only for
    a wrapped tensor, one of the three names or [None]: every other value
    reaches its last branch.  [Blur] has no such branch: it completes for
    every argument that is not a plain tensor, whatever it is. *)
Theorem constructors_filter_arguments :
  base_attrs !! "params" = None ->
  (forall params img_size factor device padding,
      is_Tensor params = true -> is_Parameter params = false ->
      Downsampling_init img_size params factor device padding
      = Err (AttributeError "params")) /\
  (forall params padding device,
      is_Tensor params = true -> is_Parameter params = false ->
      Blur_init params padding device = Err (AttributeError "params")) /\
  (forall params img_size factor device padding,
      is_ok (Downsampling_init img_size params factor device padding) = true ->
      is_Parameter params = true \/ params = VNone \/
      exists p, params = VStr (preset_name p)) /\
  (forall params padding device,
      is_ok (Blur_init params padding device) = true <->
      (is_Tensor params = false \/ is_Parameter params = true)).
Proof.
  intros Hb. repeat split.
  - intros. apply Downsampling_init_plain; auto.
  - intros. apply Blur_init_plain; auto.
  - intros. eapply Downsampling_init_only; eauto.
  - intros H. destruct (is_Tensor params) eqn:Ht; [|left; reflexivity].
    destruct (is_Parameter params) eqn:Hp; [right; reflexivity|].
    rewrite Blur_init_plain in H by assumption. discriminate H.
  - apply Blur_init_not_plain.
Qed.

(** ** The proximal step of the downsampling operator *)

Lemma nn_Parameter_value (v w : pyval) :
  nn_Parameter v = Ok w -> (exists t, w = VParameter t) \/ (exists t, w = VComplex t).
Proof.
  destruct v; simpl; intros H; try discriminate H; injection H as <-; eauto.
Qed.

(** The first half of the constructor: on success [self.params] holds a
    wrapped tensor, a complex tensor or [None], and the scalar attributes
    are those of the call. *)
Lemma Downsampling_init_params (img_size : list nat) (params : pyval) (factor : Z)
    (padding : string) (self0 self1 : gmap string pyval) :
  self0 = (let self := base_attrs in
           let self := setattr self "factor" (VInt factor) in
           let self := setattr self "imsize" (VTuple img_size) in
           let self := setattr self "padding" (VStr padding) in
           if is_Parameter params then setattr self "params" params else self) ->
  (if is_Tensor params then
     p ← getattr self0 "params"; p ← nn_Parameter p; Ok (setattr self0 "params" p)
   else if is_None params then Ok (setattr self0 "params" params)
   else if is_str params "gaussian" then
     Ok (setattr self0 "params"
           (VParameter (gaussian_blur (Qc_of_Z factor) (Qc_of_Z factor) 0)))
   else if is_str params "bilinear" then
     Ok (setattr self0 "params" (VParameter (bilinear_filter factor)))
   else if is_str params "bicubic" then
     Ok (setattr self0 "params" (VParameter (bicubic_filter factor)))
   else Err (Exception_ "The chosen downsampling filter doesn't exist")) = Ok self1 ->
  is_None params = false ->
  exists w, self1 = setattr self0 "params" w /\
            ((exists t, w = VParameter t) \/ (exists t, w = VComplex t)) /\
            self0 !! "factor" = Some (VInt factor) /\
            self0 !! "padding" = Some (VStr padding).
Proof.
  intros -> H Hn. cbv zeta in *. unfold setattr in *.
  assert (Hl : forall name v, name <> "params" ->
             (if is_Parameter params
              then <["params":=params]>
                     (<["padding":=VStr padding]>
                        (<["imsize":=VTuple img_size]>
                           (<["factor":=VInt factor]> base_attrs)))
              else <["padding":=VStr padding]>
                     (<["imsize":=VTuple img_size]>
                        (<["factor":=VInt factor]> base_attrs))) !! name = v <->
             (<["padding":=VStr padding]>
                (<["imsize":=VTuple img_size]>
                   (<["factor":=VInt factor]> base_attrs))) !! name = v).
  { intros name v Hne. destruct (is_Parameter params);
      rewrite ?lookup_insert_ne by congruence; reflexivity. }
  assert (Hfac : forall b : gmap string pyval,
             (<["padding":=VStr padding]>
                (<["imsize":=VTuple img_size]> (<["factor":=VInt factor]> b)))
               !! "factor" = Some (VInt factor)).
  { intros b. rewrite !lookup_insert_ne by congruence. apply lookup_insert_eq. }
  assert (Hpad : forall b : gmap string pyval,
             (<["padding":=VStr padding]>
                (<["imsize":=VTuple img_size]> (<["factor":=VInt factor]> b)))
               !! "padding" = Some (VStr padding)).
  { intros b. apply lookup_insert_eq. }
  destruct (is_Tensor params).
  - inv_bind H. inv_bind H. injection H as <-.
    exists v0. split; [reflexivity|]. split; [eapply nn_Parameter_value; eauto|].
    split; apply Hl; auto; congruence.
  - rewrite Hn in H.
    destruct (is_str params "gaussian");
      [|destruct (is_str params "bilinear");
        [|destruct (is_str params "bicubic"); [|discriminate H]]];
      injection H as <-; eexists; (split; [reflexivity|]);
      (split; [left; eexists; reflexivity|]);
      split; apply Hl; auto; congruence.
Qed.

(** What the constructor leaves on an operator built with a filter: the
    kernel, wrapped, and the three responses computed from it. *)
Lemma Downsampling_init_with_filter (img_size : list nat) (params : pyval) (factor : Z)
    (device padding : string) (self : gmap string pyval) :
  Downsampling_init img_size params factor device padding = Ok self ->
  is_None params = false ->
  exists k Fh Fh2,
    filter_fft k img_size false = Ok Fh /\
    broadcast2 Cmul (tmap Cconj Fh) Fh = Ok Fh2 /\
    self !! "params" = Some (VParameter k) /\
    self !! "Fh" = Some (VComplex Fh) /\
    self !! "Fhc" = Some (VComplex (tmap Cconj Fh)) /\
    self !! "Fh2" = Some (VComplex Fh2) /\
    self !! "factor" = Some (VInt factor) /\
    self !! "padding" = Some (VStr padding).
Proof.
  unfold Downsampling_init. intros H Hn.
  inv_bind H. rename v into self1.
  eapply Downsampling_init_params in E as (w & -> & Hw & Hf & Hp);
    [|reflexivity|exact Hn].
  unfold getattr, setattr in H. rewrite lookup_insert_eq in H.
  cbn [mbind result_bind] in H.
  destruct Hw as [[t ->]|[t ->]];
    cbn [is_None negb as_tensor mbind result_bind] in H; [|discriminate H].
  inv_bind H. inv_bind H. injection H as <-.
  exists t, v, v0. unfold setattr.
  repeat split; auto;
    rewrite ?lookup_insert_eq; rewrite ?lookup_insert_ne by congruence;
    rewrite ?lookup_insert_eq; rewrite ?lookup_insert_ne by congruence;
    rewrite ?lookup_insert_eq; rewrite ?lookup_insert_ne by congruence;
    rewrite ?lookup_insert_eq; auto.
Qed.

(** What the constructor leaves on an operator built without a filter: the
    attributes of the call on top of those of the base class, and nothing
    under [Fh], [Fhc] and [Fh2]. *)
Lemma Downsampling_init_without_filter (img_size : list nat) (factor : Z)
    (device padding : string) (self : gmap string pyval) :
  Downsampling_init img_size VNone factor device padding = Ok self ->
  self !! "padding" = Some (VStr padding) /\
  self !! "params" = Some VNone /\
  self !! "Fh" = base_attrs !! "Fh".
Proof.
  unfold Downsampling_init, setattr, getattr.
  cbn [is_Parameter is_Tensor is_None mbind result_bind].
  rewrite lookup_insert_eq. cbn [is_None negb mbind result_bind].
  intros H. injection H as <-.
  repeat split.
  - rewrite lookup_insert_ne by congruence. apply lookup_insert_eq.
  - apply lookup_insert_eq.
  - rewrite !lookup_insert_ne by congruence. reflexivity.
Qed.

(** C6 -- On a downsampling operator constructed without a filter and with
    circular padding, [prox_l2] with [use_fft] never returns: the closed
    formula reads [self.Fh], which the constructor computes only under
    [if self.params is not None].  Once [A_adjoint(y)] and [z_hat] are
    computed, the exception is the [AttributeError] on [Fh]. *)
Theorem Downsampling_prox_l2_missing_Fh (img_size : list nat) (factor : Z)
    (device : string) (self : gmap string pyval) (z y : rtensor) (gamma : Qc) :
  base_attrs !! "Fh" = None ->
  Downsampling_init img_size VNone factor device "circular" = Ok self ->
  is_ok (Downsampling_prox_l2 self z y gamma true) = false /\
  forall adj z_hat,
    Downsampling_A_adjoint self y = Ok adj ->
    prox_z_hat adj z gamma = Ok z_hat ->
    Downsampling_prox_l2 self z y gamma true = Err (AttributeError "Fh").
Proof.
  intros Hb H.
  destruct (Downsampling_init_without_filter _ _ _ _ _ H) as (Hp & _ & HFh).
  rewrite Hb in HFh.
  unfold Downsampling_prox_l2, getattr. rewrite Hp.
  cbn [mbind result_bind is_str]. change (String.eqb "circular" "circular") with true.
  cbv iota.
  assert (Hc : forall z_hat, prox_l2_closed_form self z_hat gamma
                             = Err (AttributeError "Fh")).
  { intros z_hat. unfold prox_l2_closed_form, getattr. rewrite HFh. reflexivity. }
  split.
  - destruct (Downsampling_A_adjoint self y) as [adj|e]; [|reflexivity].
    cbn [mbind result_bind].
    destruct (prox_z_hat adj z gamma) as [z_hat|e]; [|reflexivity].
    cbn [mbind result_bind]. rewrite Hc. reflexivity.
  - intros adj z_hat -> Hz. cbn [mbind result_bind]. rewrite Hz.
    cbn [mbind result_bind]. apply Hc.
Qed.

(** ** Normalisation of the generated kernels *)

Lemma sum_n_ext (n : nat) (f g : nat -> Qc) :
  (forall i, i < n -> f i = g i) -> sum_n n f = sum_n n g.
Proof.
  induction n as [|n IH]; intros H; simpl; [reflexivity|].
  rewrite IH by (intros i Hi; apply H; lia). rewrite H by lia. reflexivity.
Qed.

Lemma sum_n_scale (n : nat) (f : nat -> Qc) (c : Qc) :
  sum_n n (fun i => (f i * c)%Qc) = (sum_n n f * c)%Qc.
Proof.
  induction n as [|n IH]; simpl; [ring|]. rewrite IH. ring.
Qed.






(** ** The step of the diffraction generator *)

(** What the constructor leaves on the object: the shape it was given, of
    two entries at least, and no amplitude. *)
Lemma Diffraction_init_attrs (shape : list nat) (list_param : list string)
    (fc max_zernike_amplitude : Qc) (pupil_size : nat * nat) (g : diffraction_generator) :
  Diffraction_init shape list_param fc max_zernike_amplitude pupil_size = Ok g ->
  dg_shape g = shape /\ dg_max_zernike_amplitude g = None /\
  exists k1 k0 rest, rev shape = k1 :: k0 :: rest.
Proof.
  unfold Diffraction_init, PSFGenerator_init. intros H.
  inv_bind H. inv_bind E. inv_bind H. inv_bind H. inv_bind H. inv_bind H.
  injection H as <-. cbn [dg_shape dg_max_zernike_amplitude].
  split; [reflexivity|]. split; [reflexivity|].
  destruct (rev shape) as [|k1 [|k0 rest]]; try discriminate E0. eauto.
Qed.

(** C7 -- [DiffractionBlurGenerator.step] returns no kernel at all: on
    every generator the constructor returns, [generate_coeff] reads
    [self.max_zernike_amplitude], which is never assigned, and raises
    [AttributeError]; a shape of two entries, as in the example of the
    class documentation, fails before that on [self.shape[-3]]. *)
Theorem Diffraction_step_reads_unassigned_amplitude (shape : list nat)
    (list_param : list string) (fc max_zernike_amplitude : Qc) (pupil_size : nat * nat)
    (g : diffraction_generator) (draw batch_size : nat) :
  Diffraction_init shape list_param fc max_zernike_amplitude pupil_size = Ok g ->
  (3 <= length shape ->
   Diffraction_step g draw batch_size = Err (AttributeError "max_zernike_amplitude")) /\
  (length shape < 3 ->
   Diffraction_step g draw batch_size = Err (IndexError "tuple index out of range")).
Proof.
  intros H.
  destruct (Diffraction_init_attrs _ _ _ _ _ _ H) as (Hs & Ha & k1 & k0 & rest & Hr).
  assert (Hl : length shape = S (S (length rest))).
  { rewrite <- length_rev, Hr. reflexivity. }
  unfold Diffraction_step, Diffraction_intensity. rewrite Hs, Hr.
  destruct rest as [|c3 rest]; cbn [mbind result_bind].
  - split; [cbn [length] in Hl; lia | reflexivity].
  - split; [|cbn [length] in Hl; lia]. intros _.
    unfold generate_coeff. cbn [dg_shape dg_max_zernike_amplitude mbind result_bind].
    rewrite Ha. reflexivity.
Qed.

(** ** The trajectories of the motion generator *)

Lemma floordiv_two_pi_bound (n : nat) : 7 * floordiv_two_pi n <= 2 * n.
Proof.
  unfold floordiv_two_pi. change (2 ^ 47)%Z with 140737488355328%Z.
  pose proof (Z.div_mod (Z.of_nat n * 140737488355328) 884279719003555 ltac:(lia)).
  pose proof (Z.mod_pos_bound (Z.of_nat n * 140737488355328) 884279719003555 ltac:(lia)).
  lia.
Qed.

Lemma bdim_one_r (m : nat) : bdim m 1 = Some m.
Proof.
  unfold bdim. destruct (m =? 1) eqn:E.
  - apply Nat.eqb_eq in E. congruence.
  - reflexivity.
Qed.

Lemma bdim_refl (m : nat) : bdim m m = Some m.
Proof. unfold bdim. rewrite Nat.eqb_refl. reflexivity. Qed.

Lemma f_matern_structure (g : motion_generator) (draw : nat) (sigma l : option Qc)
    (B : nat) (rest : list nat) :
  mg_shape g = B :: rest ->
  2 <= mg_n_steps g ->
  exists kernel_fft vec_fft prod signal f,
    rfft (matern_kernel g (time_grid (mg_n_steps g)) sigma l) = Ok kernel_fft /\
    rfft (white_noise draw B (mg_n_steps g)) = Ok vec_fft /\
    broadcast2 Cmul vec_fft (tmap Csqrt_ kernel_fft) = Ok prod /\
    irfft prod = Ok signal /\
    f_matern g draw sigma l = Ok f /\
    at_ f = at_ signal /\
    dH f = B /\
    dW f = floordiv_two_pi (mg_n_steps g) /\
    dW (demean f) = floordiv_two_pi (mg_n_steps g).
Proof.
  intros Hs Hn. unfold f_matern. rewrite Hs. cbn [mbind result_bind].
  set (n := mg_n_steps g) in *.
  assert (H1 : (1 <=? n) = true) by (apply Nat.leb_le; lia).
  assert (H2 : (1 <=? 2 * (n / 2 + 1 - 1)) = true).
  { apply Nat.leb_le. assert (1 <= n / 2) by (apply Nat.div_le_lower_bound; lia). lia. }
  assert (H3 : (floordiv_two_pi n <=? 2 * (n / 2 + 1 - 1)) = true).
  { apply Nat.leb_le. pose proof (floordiv_two_pi_bound n).
    pose proof (Nat.div_mod_eq n 2). pose proof (Nat.mod_upper_bound n 2). lia. }
  unfold rfft. cbn [dB dC dH dW matern_kernel tmap time_grid white_noise].
  rewrite H1. cbn [check mbind result_bind].
  do 5 eexists.
  split; [reflexivity|]. split; [reflexivity|].
  split.
  { unfold broadcast2. cbn [dB dC dH dW tmap].
    rewrite !bdim_refl, bdim_one_r. reflexivity. }
  split.
  { unfold irfft. cbn [dB dC dH dW]. rewrite H2. reflexivity. }
  unfold broadcast2. cbn [dB dC dH dW tmap].
  rewrite !bdim_refl, bdim_one_r. cbn [mbind result_bind].
  unfold irfft. cbn [dB dC dH dW]. rewrite H2. cbn [check mbind result_bind].
  unfold take_columns. cbn [dB dC dH dW]. rewrite H3. cbn [check mbind result_bind].
  repeat (split; [reflexivity|]). reflexivity.
Qed.

(** The covariance that [matern_kernel] samples: with f = sqrt(5) |d| / l it
    is sigma^2 (1 + f + f^2 / 3) exp(-f), the formula of the class
    documentation, which is the Matern kernel of smoothness 5/2. *)
Lemma matern_kernel_entry (g : motion_generator) (diff : rtensor) (sigma l : Qc)
    (b c i j : nat) :
  at_ (matern_kernel g diff (Some sigma) (Some l)) b c i j
  = (sigma ^ 2
     * (1 + sq5 * Qc_abs (at_ diff b c i j) / l
        + (sq5 * Qc_abs (at_ diff b c i j) / l) ^ 2 / qz 3)
     * exp_ (- (sq5 * Qc_abs (at_ diff b c i j) / l)))%Qc.
Proof. reflexivity. Qed.

(** C8 -- [f_matern] returns, for every generator with at least two steps,
    and what it returns has floor(n_steps / (2 pi)) columns, never
    [n_steps]: the result of the inverse transform is indexed with
    [torch.arange(self.n_steps // (2 * torch.pi))].  A coordinate sequence,
    and its de-meaned copy, has fewer than a third of the [n_steps] points
    that the class documentation gives a trajectory. *)
Theorem f_matern_length (g : motion_generator) (draw : nat) (sigma l : option Qc)
    (B : nat) (rest : list nat) :
  mg_shape g = B :: rest ->
  2 <= mg_n_steps g ->
  exists f,
    f_matern g draw sigma l = Ok f /\
    dH f = B /\
    dW f = floordiv_two_pi (mg_n_steps g) /\
    dW (demean f) = dW f /\
    7 * dW f <= 2 * mg_n_steps g /\
    dW f < mg_n_steps g.
Proof.
  intros Hs Hn.
  destruct (f_matern_structure g draw sigma l B rest Hs Hn)
    as (kernel_fft & vec_fft & prod & signal & f & _ & _ & _ & _ & Hf & _ & Hh & Hw & Hd).
  pose proof (floordiv_two_pi_bound (mg_n_steps g)) as Hb.
  exists f. rewrite Hw. repeat split; auto; lia.
Qed.

(** ** Construction of the diffraction generator *)

Lemma py_index_error (n : nat) (i : Z) (e : error) :
  py_index n i = Err e -> e = IndexError "index out of range".
Proof.
  unfold py_index. destruct (_ && _); [discriminate|]. congruence.
Qed.

Lemma fill_zernike_cons (Zt : rtensor) (XX YY : nat -> nat -> Qc) (k : nat)
    (p : Z) (rest : list Z) :
  fill_zernike Zt XX YY k (p :: rest)
  = (r ← py_index (length define_zernike) p;
     fill_zernike
       (mkT (dB Zt) (dC Zt) (dH Zt) (dW Zt)
            (fun b i j k' =>
               if k' =? k then nth r define_zernike (fun _ _ => 0%Qc) (XX i j) (YY i j)
               else at_ Zt b i j k'))
       XX YY (S k) rest).
Proof. reflexivity. Qed.

Lemma fill_zernike_fails (l : list Z) (i : Z) (e : error) (Zt : rtensor)
    (XX YY : nat -> nat -> Qc) (k : nat) :
  In i l ->
  py_index (length define_zernike) i = Err e ->
  fill_zernike Zt XX YY k l = Err (IndexError "index out of range").
Proof.
  revert Zt k. induction l as [|p l IH]; intros Zt k Hin He; [destruct Hin|].
  rewrite fill_zernike_cons.
  destruct (py_index (length define_zernike) p) as [r|e'] eqn:Ep.
  - cbn [mbind result_bind]. apply IH; [|exact He].
    destruct Hin as [->|Hin]; [congruence|exact Hin].
  - cbn [mbind result_bind]. f_equal. eapply py_index_error; eauto.
Qed.

Lemma fill_zernike_succeeds (l : list Z) (Zt : rtensor)
    (XX YY : nat -> nat -> Qc) (k : nat) :
  (forall i, In i l -> (-38 <= i <= 37)%Z) ->
  exists Zt', fill_zernike Zt XX YY k l = Ok Zt'.
Proof.
  revert Zt k. induction l as [|p l IH]; intros Zt k H; [eexists; reflexivity|].
  rewrite fill_zernike_cons.
  assert (Hp : exists r, py_index (length define_zernike) p = Ok r).
  { assert (-38 <= p <= 37)%Z as Hr by (apply H; left; reflexivity).
    change (length define_zernike) with 38. unfold py_index.
    destruct (p <? 0)%Z eqn:Es.
    - apply Z.ltb_lt in Es.
      replace ((0 <=? p + Z.of_nat 38)%Z && (p + Z.of_nat 38 <? Z.of_nat 38)%Z) with true;
        [eexists; reflexivity|].
      symmetry. apply andb_true_iff. split; [apply Z.leb_le|apply Z.ltb_lt]; lia.
    - apply Z.ltb_ge in Es.
      replace ((0 <=? p)%Z && (p <? Z.of_nat 38)%Z) with true; [eexists; reflexivity|].
      symmetry. apply andb_true_iff. split; [apply Z.leb_le|apply Z.ltb_lt]; lia. }
  destruct Hp as [r ->]. cbn [mbind result_bind].
  apply IH. intros i Hi. apply H. right. exact Hi.
Qed.

Lemma np_max_bound (l : list Z) (m bound : Z) :
  np_max l = Ok m -> (forall i, In i l -> (i <= bound)%Z) -> (m <= bound)%Z.
Proof.
  destruct l as [|a r]; [discriminate|]. simpl. intros H Hall. injection H as <-.
  assert (Ha : (a <= bound)%Z) by (apply Hall; left; reflexivity).
  assert (Hr : forall i, In i r -> (i <= bound)%Z) by (intros i Hi; apply Hall; right; exact Hi).
  clear Hall. revert a Ha. induction r as [|b r IH]; intros a Ha; simpl; [exact Ha|].
  apply IH.
  - intros i Hi. apply Hr. right. exact Hi.
  - apply Z.max_lub; [exact Ha|]. apply Hr. left. reflexivity.
Qed.

Lemma np_max_defined (l : list Z) : l <> [] -> exists m, np_max l = Ok m.
Proof. destruct l; [congruence|]. intros _. eexists. reflexivity. Qed.

Lemma merge_sort_In (l : list Z) (i : Z) : In i (merge_sort Z.le l) <-> In i l.
Proof.
  rewrite <- !list_elem_of_In. rewrite merge_sort_Permutation. reflexivity.
Qed.

(** C9 -- A list of active indices that reaches 38 and does not exceed it
    passes the assertion of the constructor (38 <= 38) and is then looked up
    in the list returned by [define_zernike], which has the 38 entries
    [Z[0]] to [Z[37]]: construction raises [IndexError]. *)
Theorem Diffraction_init_index_38 (shape : list nat) (list_param : list string)
    (fc amplitude : Qc) (pupil_size : nat * nat) (kernel_size : nat * nat)
    (index_params : list Z) :
  PSFGenerator_init shape = Ok kernel_size ->
  mapM (fun param => int_of_string (tail_string param)) list_param = Ok index_params ->
  In 38%Z index_params ->
  (forall i, In i index_params -> (i <= 38)%Z) ->
  Diffraction_init shape list_param fc amplitude pupil_size
  = Err (IndexError "index out of range").
Proof.
  intros Hk Hm Hin Hmax. unfold Diffraction_init.
  rewrite Hk. cbn [mbind result_bind]. rewrite Hm. cbn [mbind result_bind].
  destruct (np_max_defined (merge_sort Z.le index_params)) as [m Em].
  { intros E. apply (proj2 (merge_sort_In _ _)) in Hin. rewrite E in Hin. destruct Hin. }
  rewrite Em. cbn [mbind result_bind].
  assert (Hle : (m <= 38)%Z).
  { eapply np_max_bound; [exact Em|]. intros i Hi. apply Hmax, merge_sort_In, Hi. }
  unfold assert_. replace (m <=? 38)%Z with true by (symmetry; apply Z.leb_le; exact Hle).
  cbn [mbind result_bind].
  rewrite (fill_zernike_fails _ 38%Z (IndexError "index out of range"));
    [reflexivity | apply merge_sort_In; exact Hin | reflexivity].
Qed.

(** Below 38 construction succeeds: every index between 1 and 37 names an
    entry of the list. *)
Lemma Diffraction_init_below_38 (shape : list nat) (list_param : list string)
    (fc amplitude : Qc) (pupil_size : nat * nat) (kernel_size : nat * nat)
    (index_params : list Z) :
  PSFGenerator_init shape = Ok kernel_size ->
  mapM (fun param => int_of_string (tail_string param)) list_param = Ok index_params ->
  index_params <> [] ->
  (forall i, In i index_params -> (1 <= i <= 37)%Z) ->
  exists g, Diffraction_init shape list_param fc amplitude pupil_size = Ok g /\
            dg_index_params g = merge_sort Z.le index_params.
Proof.
  intros Hk Hm Hne Hall. unfold Diffraction_init.
  rewrite Hk. cbn [mbind result_bind]. rewrite Hm. cbn [mbind result_bind].
  destruct (np_max_defined (merge_sort Z.le index_params)) as [m Em].
  { intros E. destruct index_params as [|a r]; [congruence|].
    assert (In a (merge_sort Z.le (a :: r))) as Ha by (apply merge_sort_In; left; reflexivity).
    rewrite E in Ha. destruct Ha. }
  rewrite Em. cbn [mbind result_bind].
  assert (Hle : (m <= 38)%Z).
  { eapply np_max_bound; [exact Em|]. intros i Hi.
    apply (proj1 (merge_sort_In _ _)) in Hi. apply Hall in Hi. lia. }
  unfold assert_. replace (m <=? 38)%Z with true by (symmetry; apply Z.leb_le; exact Hle).
  cbn [mbind result_bind].
  match goal with
  | |- context [fill_zernike ?Zt ?XX ?YY 0 ?l] =>
      destruct (fill_zernike_succeeds l Zt XX YY 0) as [Zt' ->]
  end.
  { intros i Hi. apply (proj1 (merge_sort_In _ _)) in Hi. apply Hall in Hi. lia. }
  cbn [mbind result_bind]. eexists. split; reflexivity.
Qed.

(** An index above 38 fails the assertion. *)
Lemma Diffraction_init_above_38 (shape : list nat) (list_param : list string)
    (fc amplitude : Qc) (pupil_size : nat * nat) (kernel_size : nat * nat)
    (index_params : list Z) (i : Z) :
  PSFGenerator_init shape = Ok kernel_size ->
  mapM (fun param => int_of_string (tail_string param)) list_param = Ok index_params ->
  In i index_params -> (38 < i)%Z ->
  Diffraction_init shape list_param fc amplitude pupil_size
  = Err (AssertionError "The Zernike polynomial index can not be exceed 38").
Proof.
  intros Hk Hm Hin Hi. unfold Diffraction_init.
  rewrite Hk. cbn [mbind result_bind]. rewrite Hm. cbn [mbind result_bind].
  destruct (np_max_defined (merge_sort Z.le index_params)) as [m Em].
  { intros E. apply (proj2 (merge_sort_In _ _)) in Hin. rewrite E in Hin. destruct Hin. }
  rewrite Em. cbn [mbind result_bind].
  assert (Hgt : (38 < m)%Z).
  { destruct (Z.lt_ge_cases 38 m) as [|Hle]; [assumption|].
    exfalso. apply (proj2 (merge_sort_In _ _)) in Hin.
    destruct (merge_sort Z.le index_params) as [|a r]; [destruct Hin|].
    simpl in Em. injection Em as <-.
    assert (Hfold : forall r a, (a <= fold_left Z.max r a)%Z /\
                                forall j, In j r -> (j <= fold_left Z.max r a)%Z).
    { clear. induction r as [|b r IH]; intros a; simpl; [split; [lia|tauto]|].
      destruct (IH (Z.max a b)) as [H1 H2]. split; [lia|].
      intros j [->|Hj]; [lia|auto]. }
    destruct (Hfold r a) as [H1 H2].
    destruct Hin as [->|Hin]; [lia|]. specialize (H2 _ Hin). lia. }
  unfold assert_. replace (m <=? 38)%Z with false by (symmetry; apply Z.leb_gt; exact Hgt).
  reflexivity.
Qed.

End Physics.

(** * The convolution engine and its adjoint *)

Ltac invert_bind H :=
  let a := fresh "v" in
  let Ha := fresh "E" in
  apply bind_Ok in H; destruct H as (a & Ha & H).

Ltac invert_check H :=
  match type of H with
  | check ?b ?e ≫= _ = Ok _ =>
      let Hb := fresh "Hc" in
      destruct b eqn:Hb; [|discriminate H];
      change (check true e) with (Ok tt) in H;
      cbn [mbind result_bind] in H
  end.

(** ** Finite sums *)

Lemma sum_n_zero (n : nat) : sum_n n (fun _ => 0%Qc) = 0%Qc.
Proof. induction n as [|n IH]; simpl; [reflexivity|]. rewrite IH. ring. Qed.

Lemma sum_n_plus (n : nat) (f g : nat -> Qc) :
  sum_n n (fun i => (f i + g i)%Qc) = (sum_n n f + sum_n n g)%Qc.
Proof. induction n as [|n IH]; simpl; [ring|]. rewrite IH. ring. Qed.

Lemma sum_n_mul_l (n : nat) (f : nat -> Qc) (c : Qc) :
  sum_n n (fun i => (c * f i)%Qc) = (c * sum_n n f)%Qc.
Proof. induction n as [|n IH]; simpl; [ring|]. rewrite IH. ring. Qed.

Lemma sum_n_swap (n m : nat) (f : nat -> nat -> Qc) :
  sum_n n (fun i => sum_n m (fun j => f i j))
  = sum_n m (fun j => sum_n n (fun i => f i j)).
Proof.
  induction n as [|n IH]; simpl.
  - symmetry. apply sum_n_zero.
  - rewrite IH. symmetry. apply sum_n_plus.
Qed.

Lemma sum_n_app (a b : nat) (f : nat -> Qc) :
  sum_n (a + b) f = (sum_n a f + sum_n b (fun i => f (a + i)%nat))%Qc.
Proof.
  induction b as [|b IH].
  - rewrite Nat.add_0_r. simpl. ring.
  - rewrite Nat.add_succ_r. simpl. rewrite IH. ring.
Qed.

Lemma sum_n_rev (n : nat) (f : nat -> Qc) :
  sum_n n f = sum_n n (fun i => f (n - 1 - i)).
Proof.
  induction n as [|n IH]; [reflexivity|].
  change (S n) with (1 + n) at 2. rewrite sum_n_app. simpl.
  rewrite IH. replace (n - 0 - 0) with n by lia.
  rewrite (sum_n_ext n (fun i => f (n - 0 - S i)) (fun i => f (n - 1 - i)))
    by (intros i Hi; f_equal; lia).
  ring.
Qed.

(** A sum over an axis of which only the window [a, a + n) contributes. *)
Lemma sum_n_window (m a n : nat) (f : nat -> Qc) :
  a + n <= m ->
  sum_n m (fun u => if (a <=? u) && (u - a <? n) then f (u - a) else 0%Qc)
  = sum_n n f.
Proof.
  intros Hm. replace m with (a + (n + (m - a - n))) by lia.
  rewrite sum_n_app, sum_n_app.
  rewrite (sum_n_ext a _ (fun _ => 0%Qc)).
  2:{ intros i Hi. destruct (Nat.leb_spec a i); [lia | reflexivity]. }
  rewrite (sum_n_ext n _ f).
  2:{ intros i Hi. destruct (Nat.leb_spec a (a + i)); [|lia].
      replace (a + i - a) with i by lia.
      destruct (Nat.ltb_spec i n); [reflexivity | lia]. }
  rewrite (sum_n_ext (m - a - n) _ (fun _ => 0%Qc)).
  2:{ intros i Hi. destruct (Nat.leb_spec a (a + (n + i))); [|lia].
      destruct (Nat.ltb_spec (a + (n + i) - a) n); [lia | reflexivity]. }
  rewrite !sum_n_zero. ring.
Qed.

(** The scatter form of a double sum: the pairs (i, a) are grouped by
    u = i + a. *)
Lemma sum_n_scatter (n h : nat) (G : nat -> nat -> Qc) :
  sum_n n (fun i => sum_n h (fun a => G i a))
  = sum_n (n + h - 1) (fun u => sum_n h (fun a =>
      if (a <=? u) && (u - a <? n) then G (u - a) a else 0%Qc)).
Proof.
  rewrite sum_n_swap. rewrite (sum_n_swap (n + h - 1)).
  apply sum_n_ext. intros a Ha.
  symmetry. apply (sum_n_window (n + h - 1) a n (fun i => G i a)). lia.
Qed.

Lemma sum_n_zero_ext (n : nat) (f : nat -> Qc) :
  (forall i, i < n -> f i = 0%Qc) -> sum_n n f = 0%Qc.
Proof. intros H. rewrite (sum_n_ext n f (fun _ => 0%Qc) H). apply sum_n_zero. Qed.

Lemma sum_n_interval (m a n : nat) (f : nat -> Qc) :
  a + n <= m ->
  sum_n m (fun u => if (a <=? u) && (u <? a + n) then f u else 0%Qc)
  = sum_n n (fun s => f (a + s)%nat).
Proof.
  intros Hm. rewrite <- (sum_n_window m a n (fun s => f (a + s)%nat)) by exact Hm.
  apply sum_n_ext. intros u Hu.
  destruct (Nat.leb_spec a u); simpl; [|reflexivity].
  replace (a + (u - a)) with u by lia.
  destruct (Nat.ltb_spec u (a + n)), (Nat.ltb_spec (u - a) n); (reflexivity || lia).
Qed.

Lemma sum_n_single (n a : nat) (f : nat -> Qc) :
  a < n -> sum_n n (fun i => if i =? a then f i else 0%Qc) = f a.
Proof.
  intros Ha.
  rewrite (sum_n_ext n _ (fun u => if (a <=? u) && (u <? a + 1) then f u else 0%Qc)).
  - rewrite sum_n_interval by lia. simpl. rewrite Nat.add_0_r. ring.
  - intros i Hi.
    destruct (Nat.eqb_spec i a), (Nat.leb_spec a i), (Nat.ltb_spec i (a + 1));
      simpl; (reflexivity || lia).
Qed.

Ltac split3 n p :=
  replace (n + 2 * p) with (p + (n + p)) by lia;
  rewrite (sum_n_app p (n + p)), (sum_n_app n p).

Lemma circular_pad_adjoint (n p : nat) (X g : nat -> Qc) :
  1 <= n -> p <= n ->
  sum_n (n + 2 * p) (fun u => (X (circular_src n p u)%nat * g u)%Qc)
  = sum_n n (fun i => (X i * unpad_circular n p g i)%Qc).
Proof.
  intros Hn Hp. unfold unpad_circular.
  rewrite (sum_n_ext n _ (fun i =>
    (X i * g (p + i)%nat
     + (if (0 <=? i) && (i <? 0 + p) then X i * g (n + p + i)%nat else 0)
     + (if (n - p <=? i) && (i <? n - p + p) then X i * g (i - (n - p))%nat else 0))%Qc)).
  2:{ intros i Hi. simpl.
      destruct (i <? p); destruct (Nat.leb_spec (n - p) i); simpl;
        destruct (Nat.ltb_spec i (n - p + p)); try lia; ring. }
  rewrite !sum_n_plus, !sum_n_interval by lia.
  split3 n p.
  rewrite (sum_n_ext p _ (fun s => (X (n - p + s)%nat * g (n - p + s - (n - p))%nat)%Qc)).
  2:{ intros u Hu. unfold circular_src.
      rewrite Nat.mod_small by lia.
      f_equal; f_equal; lia. }
  rewrite (sum_n_ext n _ (fun i => (X i * g (p + i)%nat)%Qc)).
  2:{ intros i Hi. unfold circular_src.
      replace (p + i + n - p) with (i + 1 * n) by lia.
      rewrite Nat.Div0.mod_add, Nat.mod_small by lia. reflexivity. }
  rewrite (sum_n_ext p (fun i => (X (circular_src n p (p + (n + i)))%nat * g (p + (n + i))%nat)%Qc)
             (fun s => (X (0 + s)%nat * g (n + p + (0 + s))%nat)%Qc)).
  2:{ intros s Hs. unfold circular_src.
      replace (p + (n + s) + n - p) with (s + 2 * n) by lia.
      rewrite Nat.Div0.mod_add, Nat.mod_small by lia.
      f_equal; f_equal; lia. }
  ring.
Qed.

Lemma reflect_pad_adjoint (n p : nat) (X g : nat -> Qc) :
  p < n ->
  sum_n (n + 2 * p) (fun u => (X (reflect_src n p u)%nat * g u)%Qc)
  = sum_n n (fun i => (X i * unpad_reflect n p g i)%Qc).
Proof.
  intros Hp. unfold unpad_reflect.
  rewrite (sum_n_ext n _ (fun i =>
    (X i * g (p + i)%nat
     + (if (1 <=? i) && (i <? 1 + p) then X i * g (p - i)%nat else 0)
     + (if (n - p - 1 <=? i) && (i <? n - p - 1 + p)
        then X i * g (2 * n + p - 2 - i)%nat else 0))%Qc)).
  2:{ intros i Hi.
      replace (n - p - 1 + p) with (n - 1) by lia.
      destruct ((1 <=? i) && (i <? 1 + p)), ((n - p - 1 <=? i) && (i <? n - 1)); ring. }
  rewrite !sum_n_plus, !sum_n_interval by lia.
  split3 n p.
  rewrite (sum_n_rev p (fun s => (X (1 + s)%nat * g (p - (1 + s))%nat)%Qc)).
  rewrite (sum_n_rev p (fun s => (X (n - p - 1 + s)%nat * g (2 * n + p - 2 - (n - p - 1 + s))%nat)%Qc)).
  rewrite (sum_n_ext p (fun u => (X (reflect_src n p u)%nat * g u)%Qc)
             (fun i => (X (1 + (p - 1 - i))%nat * g (p - (1 + (p - 1 - i)))%nat)%Qc)).
  2:{ intros u Hu. unfold reflect_src.
      destruct (Nat.ltb_spec u p); [|lia]. f_equal; f_equal; lia. }
  rewrite (sum_n_ext n (fun i => (X (reflect_src n p (p + i))%nat * g (p + i)%nat)%Qc)
             (fun i => (X i * g (p + i)%nat)%Qc)).
  2:{ intros i Hi. unfold reflect_src.
      destruct (Nat.ltb_spec (p + i) p); [lia|].
      destruct (Nat.ltb_spec (p + i) (p + n)); [|lia]. f_equal; f_equal; lia. }
  rewrite (sum_n_ext p (fun i => (X (reflect_src n p (p + (n + i)))%nat * g (p + (n + i))%nat)%Qc)
             (fun i => (X (n - p - 1 + (p - 1 - i))%nat
                        * g (2 * n + p - 2 - (n - p - 1 + (p - 1 - i)))%nat)%Qc)).
  2:{ intros s Hs. unfold reflect_src.
      destruct (Nat.ltb_spec (p + (n + s)) p); [lia|].
      destruct (Nat.ltb_spec (p + (n + s)) (p + n)); [lia|]. f_equal; f_equal; lia. }
  ring.
Qed.

Lemma replicate_pad_adjoint (n p : nat) (X g : nat -> Qc) :
  1 <= n ->
  sum_n (n + 2 * p) (fun u => (X (replicate_src n p u)%nat * g u)%Qc)
  = sum_n n (fun i => (X i * unpad_replicate n p g i)%Qc).
Proof.
  intros Hn. unfold unpad_replicate.
  rewrite (sum_n_ext n _ (fun i =>
    (X i * g (p + i)%nat
     + (if i =? 0 then X i * sum_n p g else 0)
     + (if i =? n - 1 then X i * sum_n p (fun s => g (n + p + s)%nat) else 0))%Qc)).
  2:{ intros i Hi. destruct (i =? 0), (i =? n - 1); ring. }
  rewrite !sum_n_plus, !sum_n_single by lia.
  split3 n p.
  rewrite (sum_n_ext p (fun u => (X (replicate_src n p u)%nat * g u)%Qc)
             (fun u => (X 0%nat * g u)%Qc)).
  2:{ intros u Hu. unfold replicate_src.
      destruct (Nat.ltb_spec u p); [reflexivity | lia]. }
  rewrite (sum_n_ext n (fun i => (X (replicate_src n p (p + i))%nat * g (p + i)%nat)%Qc)
             (fun i => (X i * g (p + i)%nat)%Qc)).
  2:{ intros i Hi. unfold replicate_src.
      destruct (Nat.ltb_spec (p + i) p); [lia|].
      destruct (Nat.ltb_spec (p + i) (p + n)); [|lia]. f_equal; f_equal; lia. }
  rewrite (sum_n_ext p (fun i => (X (replicate_src n p (p + (n + i)))%nat * g (p + (n + i))%nat)%Qc)
             (fun s => (X (n - 1)%nat * g (n + p + s)%nat)%Qc)).
  2:{ intros s Hs. unfold replicate_src.
      destruct (Nat.ltb_spec (p + (n + s)) p); [lia|].
      destruct (Nat.ltb_spec (p + (n + s)) (p + n)); [lia|]. f_equal; f_equal; lia. }
  rewrite !sum_n_mul_l. ring.
Qed.

(** Two axes: the halo is folded back on the columns, then on the rows. *)
Lemma pad_adjoint_2d (H W Hp Wp : nat) (srcH srcW : nat -> nat)
    (TH TW : (nat -> Qc) -> nat -> Qc) (X F : nat -> nat -> Qc) :
  (forall X g, sum_n Hp (fun u => (X (srcH u)%nat * g u)%Qc)
               = sum_n H (fun i => (X i * TH g i)%Qc)) ->
  (forall X g, sum_n Wp (fun v => (X (srcW v)%nat * g v)%Qc)
               = sum_n W (fun j => (X j * TW g j)%Qc)) ->
  sum_n Hp (fun u => sum_n Wp (fun v => (X (srcH u)%nat (srcW v) * F u v)%Qc))
  = sum_n H (fun i => sum_n W (fun j =>
      (X i j * TH (fun u => TW (F u) j) i)%Qc)).
Proof.
  intros HH HW.
  rewrite (sum_n_ext Hp _ (fun u => sum_n W (fun j => (X (srcH u)%nat j * TW (F u) j)%Qc))).
  2:{ intros u _. apply (HW (X (srcH u)%nat) (F u)). }
  rewrite sum_n_swap.
  rewrite (sum_n_ext W _ (fun j => sum_n H (fun i =>
             (X i j * TH (fun u => TW (F u) j) i)%Qc))).
  2:{ intros j _. apply (HH (fun i => X i j) (fun u => TW (F u) j)). }
  apply sum_n_swap.
Qed.

(** One plane: the valid correlation with a kernel and the full transposed
    convolution with the same kernel are adjoint. *)
Lemma correlate_adjoint (Ho Wo h w : nat) (XP Y K : nat -> nat -> Qc) :
  sum_n Ho (fun i => sum_n Wo (fun j =>
    (sum_n h (fun a => sum_n w (fun d => XP (i + a)%nat (j + d)%nat * K a d)) * Y i j)%Qc))
  = sum_n (Ho + h - 1) (fun u => sum_n (Wo + w - 1) (fun v =>
      (XP u v * sum_n h (fun a => sum_n w (fun d =>
         if (a <=? u) && (u - a <? Ho) && (d <=? v) && (v - d <? Wo)
         then Y (u - a)%nat (v - d)%nat * K a d else 0)))%Qc)).
Proof.
  set (T := fun i j a d => (XP (i + a)%nat (j + d)%nat * K a d * Y i j)%Qc).
  transitivity
    (sum_n Ho (fun i => sum_n (Wo + w - 1) (fun v => sum_n h (fun a => sum_n w (fun d =>
       if (d <=? v) && (v - d <? Wo) then T i (v - d)%nat a d else 0%Qc))))).
  { apply sum_n_ext. intros i _.
    rewrite (sum_n_ext Wo _ (fun j => sum_n h (fun a => sum_n w (fun d => T i j a d)))).
    2:{ intros j _. rewrite <- sum_n_scale. apply sum_n_ext. intros a _.
        rewrite <- sum_n_scale. reflexivity. }
    rewrite sum_n_swap.
    rewrite (sum_n_ext h _ (fun a => sum_n (Wo + w - 1) (fun v => sum_n w (fun d =>
               if (d <=? v) && (v - d <? Wo) then T i (v - d)%nat a d else 0%Qc)))).
    2:{ intros a _. apply (sum_n_scatter Wo w (fun j d => T i j a d)). }
    apply sum_n_swap. }
  rewrite sum_n_swap.
  rewrite (sum_n_ext (Wo + w - 1) _ (fun v => sum_n (Ho + h - 1) (fun u => sum_n h (fun a =>
             if (a <=? u) && (u - a <? Ho)
             then sum_n w (fun d =>
                    if (d <=? v) && (v - d <? Wo) then T (u - a)%nat (v - d)%nat a d else 0%Qc)
             else 0%Qc)))).
  2:{ intros v _.
      apply (sum_n_scatter Ho h (fun i a => sum_n w (fun d =>
               if (d <=? v) && (v - d <? Wo) then T i (v - d)%nat a d else 0%Qc))). }
  rewrite sum_n_swap.
  apply sum_n_ext. intros u _. apply sum_n_ext. intros v _.
  rewrite <- sum_n_mul_l. apply sum_n_ext. intros a _.
  rewrite <- sum_n_mul_l.
  destruct (Nat.leb_spec a u) as [Hau|Hau]; simpl.
  2:{ symmetry. apply sum_n_zero_ext. intros d _. ring. }
  destruct (u - a <? Ho); simpl.
  2:{ symmetry. apply sum_n_zero_ext. intros d _. ring. }
  apply sum_n_ext. intros d _.
  destruct (Nat.leb_spec d v) as [Hdv|Hdv]; simpl; [|ring].
  destruct (v - d <? Wo); [|ring].
  unfold T. replace (u - a + a) with u by lia. replace (v - d + d) with v by lia. ring.
Qed.

(** ** The folds of [conv_transpose] *)

(** ** Slices *)

Lemma py_bound_nat (n p : nat) : p <= n -> py_bound n (Z.of_nat p) = p.
Proof. intros Hp. unfold py_bound. destruct (Z.ltb_spec (Z.of_nat p) 0); lia. Qed.

Lemma py_bound_neg (n p : nat) : 1 <= p -> py_bound n (- Z.of_nat p) = n - p.
Proof. intros Hp. unfold py_bound. destruct (Z.ltb_spec (- Z.of_nat p) 0); lia. Qed.

Lemma py_bound_succ (n p : nat) : 1 + p <= n -> py_bound n (1 + Z.of_nat p) = 1 + p.
Proof. intros Hp. unfold py_bound. destruct (Z.ltb_spec (1 + Z.of_nat p) 0); lia. Qed.

Lemma py_bound_neg_succ (n p : nat) : py_bound n (- Z.of_nat p - 1) = n - p - 1.
Proof. unfold py_bound. destruct (Z.ltb_spec (- Z.of_nat p - 1) 0); lia. Qed.

Lemma py_bound_one (n : nat) : 1 <= n -> py_bound n 1 = 1.
Proof. intros Hn. unfold py_bound. change (1 <? 0)%Z with false. cbv iota. lia. Qed.

Lemma py_bound_minus_one (n : nat) : py_bound n (-1) = n - 1.
Proof. unfold py_bound. change (-1 <? 0)%Z with true. cbv iota. lia. Qed.

Lemma bidx_same (n k : nat) : k < n -> bidx n k = k.
Proof. unfold bidx. intros H. destruct (Nat.eqb_spec n 1); lia. Qed.

Lemma broadcasts_to_refl (n : nat) : broadcasts_to n n = true.
Proof. unfold broadcasts_to. rewrite Nat.eqb_refl. reflexivity. Qed.

Lemma in_range_spec (a n u : nat) : in_range a n u = true <-> a <= u /\ u < a + n.
Proof. unfold in_range. rewrite andb_true_iff, Nat.leb_le, Nat.ltb_lt. tauto. Qed.

Lemma in_range_true (a n u : nat) : a <= u /\ u < a + n -> in_range a n u = true.
Proof. apply in_range_spec. Qed.

Lemma in_range_as (a n u : nat) (c : bool) :
  (c = true <-> a <= u /\ u < a + n) -> in_range a n u = c.
Proof.
  intros Hc. destruct c.
  - apply in_range_spec, Hc. reflexivity.
  - destruct (in_range a n u) eqn:E; [|reflexivity].
    apply in_range_spec, Hc in E. discriminate E.
Qed.

Lemma in_window_ranges (w : window) (i j : nat) :
  in_window w i j = in_range (w_h0 w) (w_hn w) i && in_range (w_w0 w) (w_wn w) j.
Proof. unfold in_window, in_range. rewrite !andb_assoc. reflexivity. Qed.

Lemma in_window_spec (w : window) (i j : nat) :
  in_window w i j = true
  <-> w_h0 w <= i /\ i < w_h0 w + w_hn w /\ w_w0 w <= j /\ j < w_w0 w + w_wn w.
Proof.
  rewrite in_window_ranges, andb_true_iff, !in_range_spec. tauto.
Qed.

Lemma in_window_false (w : window) (i j : nat) :
  in_window w i j = false
  <-> ~ (w_h0 w <= i /\ i < w_h0 w + w_hn w /\ w_w0 w <= j /\ j < w_w0 w + w_wn w).
Proof.
  rewrite <- in_window_spec. destruct (in_window w i j); split; congruence.
Qed.

(** One [+=] of the fold: the destination lies in [out], the operand is
    read from the halo, so the halo is kept and the destination gains [r]. *)
Lemma iadd_step (x0 buf rhs : rtensor) (out w : window)
    (r : nat -> nat -> nat -> nat -> Qc) :
  halo_kept x0 buf out ->
  (forall i j, in_window w i j = true -> in_window out i j = true) ->
  dB rhs = dB x0 -> dC rhs = dC x0 ->
  broadcasts_to (dH rhs) (w_hn w) = true ->
  broadcasts_to (dW rhs) (w_wn w) = true ->
  (forall b c i j, b < dB x0 -> c < dC x0 -> in_window w i j = true ->
     at_ rhs b c (bidx (dH rhs) (i - w_h0 w)) (bidx (dW rhs) (j - w_w0 w)) = r b c i j) ->
  exists buf', iadd buf w rhs = Ok buf' /\ halo_kept x0 buf' out /\
    forall b c i j, b < dB x0 -> c < dC x0 ->
      at_ buf' b c i j = (at_ buf b c i j + if in_window w i j then r b c i j else 0)%Qc.
Proof.
  intros [Hs Hk] Hsub HB HC HbH HbW Hr.
  unfold shape in Hs. injection Hs as EB EC EH EW.
  unfold iadd. rewrite HB, HC, EB, EC, !broadcasts_to_refl, HbH, HbW. simpl.
  eexists. split; [reflexivity|]. split; [split|].
  - unfold shape. simpl. congruence.
  - intros b c i j Ho. simpl.
    destruct (in_window w i j) eqn:Ew.
    + apply Hsub in Ew. congruence.
    + apply Hk, Ho.
  - intros b c i j Hb Hc. simpl.
    destruct (in_window w i j) eqn:Ew; [|ring].
    rewrite !bidx_same by lia. rewrite (Hr b c i j Hb Hc Ew). reflexivity.
Qed.

Ltac norm_bounds :=
  rewrite ?py_bound_neg, ?py_bound_neg_succ, ?py_bound_minus_one,
          ?py_bound_nat, ?py_bound_succ, ?py_bound_one by lia;
  rewrite ?Nat.add_0_l, ?Nat.add_0_r, ?Nat.sub_0_r.

Ltac norm_unfold :=
  unfold tslice, sub_window, full_window, slice_len, slice_start, slice_stop,
         sl, sl_to, sl_from, sl_all, flip_hw, flip_h, flip_w, sum_hw, sum_h, sum_w, read;
  cbn [sl_start sl_stop w_h0 w_hn w_w0 w_wn dB dC dH dW at_].

Ltac norm_slices := norm_unfold; norm_bounds.

Ltac norm_slices_in Hw :=
  unfold sub_window, slice_len, slice_start, slice_stop,
         sl, sl_to, sl_from, sl_all in Hw;
  cbn [sl_start sl_stop w_h0 w_hn w_w0 w_wn] in Hw;
  rewrite ?py_bound_neg, ?py_bound_neg_succ, ?py_bound_minus_one,
          ?py_bound_nat, ?py_bound_succ, ?py_bound_one in Hw by lia;
  rewrite ?Nat.add_0_l, ?Nat.add_0_r, ?Nat.sub_0_r in Hw.

Lemma broadcasts_to_eq (a b : nat) : a = b -> broadcasts_to a b = true.
Proof. intros ->. apply broadcasts_to_refl. Qed.

Lemma halo_kept_dims (x0 buf : rtensor) (out : window) :
  halo_kept x0 buf out ->
  dB buf = dB x0 /\ dC buf = dC x0 /\ dH buf = dH x0 /\ dW buf = dW x0.
Proof. intros [S _]. unfold shape in S. injection S. auto. Qed.

Ltac window_lia := cbn [w_h0 w_hn w_w0 w_wn]; lia.

Lemma py_index_zero (n : nat) : 1 <= n -> py_index n 0 = Ok 0.
Proof.
  intros Hn. unfold py_index. change (0 <? 0)%Z with false. cbv iota.
  change (0 <=? 0)%Z with true.
  destruct (Z.ltb_spec 0 (Z.of_nat n)); [reflexivity | lia].
Qed.

Lemma py_index_last (n : nat) : 1 <= n -> py_index n (-1) = Ok (n - 1).
Proof.
  intros Hn. unfold py_index. change (-1 <? 0)%Z with true. cbv iota.
  destruct (Z.leb_spec 0 (-1 + Z.of_nat n)); [|lia].
  destruct (Z.ltb_spec (-1 + Z.of_nat n) (Z.of_nat n)); [|lia].
  simpl. f_equal. lia.
Qed.

(** One step of a fold.  [EH] and [EW] give the extents of the buffer, [K]
    is the invariant of the current buffer, [wc] the destination window and
    [r] the value the destination gains, both in the coordinates of the
    buffer. *)
Ltac fold_step EH EW K wc r :=
  lazymatch goal with
  | |- exists t, iadd ?buf ?w ?rhs ≫= _ = Ok t /\ _ =>
      let x' := fresh "x" in
      let E := fresh "E" in
      let K' := fresh "K" in
      let A := fresh "A" in
      let DB := fresh "DB" in
      let DC := fresh "DC" in
      let DH := fresh "DH" in
      let DW := fresh "DW" in
      let Ew := fresh "Ew" in
      destruct (halo_kept_dims _ _ _ K) as (DB & DC & DH & DW);
      rewrite EH in DH; rewrite EW in DW;
      first [ constr_eq w wc
            | assert (Ew : w = wc) by (norm_unfold; norm_bounds; f_equal; lia);
              rewrite Ew; clear Ew ];
      destruct (iadd_step _ buf rhs _ wc r K) as (x' & E & K' & A);
      [ intros ? ?; rewrite !in_window_spec; window_lia
      | norm_unfold; congruence
      | norm_unfold; congruence
      | norm_unfold; rewrite ?DH, ?DW; norm_bounds; apply broadcasts_to_eq; lia
      | norm_unfold; rewrite ?DH, ?DW; norm_bounds; apply broadcasts_to_eq; lia
      | let Hw := fresh "Hw" in
        intros ? ? ? ? ? ? Hw; apply in_window_spec in Hw;
        cbn [w_h0 w_hn w_w0 w_wn] in Hw;
        norm_unfold; rewrite ?DH, ?DW; norm_bounds;
        rewrite ?bidx_same by lia
      | rewrite E; cbn [mbind result_bind]; clear E DB DC DH DW ]
  end.

Ltac from_halo K :=
  let R1 := fresh "R" in
  let R2 := fresh "R" in
  let C1 := fresh "C" in
  let C2 := fresh "C" in
  match goal with
  | Hw : _ <= _ /\ _ |- _ => destruct Hw as (R1 & R2 & C1 & C2)
  end;
  repeat (match goal with
          | |- sum_n ?n _ = sum_n ?m _ =>
              first [ constr_eq n m | replace n with m by lia ];
              apply sum_n_ext; intros ? ?
          end);
  match goal with
  | |- at_ _ _ _ ?e1 ?e2 = at_ _ _ _ ?r1 ?r2 =>
      first [ constr_eq e1 r1 | replace e1 with r1 by (clear C1 C2; lia) ];
      first [ constr_eq e2 r2 | replace e2 with r2 by (clear R1 R2; lia) ]
  end;
  apply (proj2 K); apply in_window_false; cbn [w_h0 w_hn w_w0 w_wn];
  intros (? & ? & ? & ?);
  first [ clear C1 C2; lia | clear R1 R2; lia ].

(** A range test of the goal that is equivalent to the test [c]. *)
Ltac range_as c :=
  repeat match goal with
         | |- context [in_range ?a ?n ?u] =>
             rewrite (in_range_as a n u c)
               by (first [ rewrite Nat.ltb_lt | rewrite Nat.leb_le | rewrite Nat.eqb_eq
                         | rewrite andb_true_iff, Nat.leb_le, Nat.ltb_lt ]; lia)
         end.

Ltac range_true :=
  repeat match goal with
         | |- context [in_range ?a ?n ?u] =>
             rewrite (in_range_true a n u) by lia
         end.

Ltac same_entries F :=
  repeat match goal with
         | |- context [F ?e1 ?e2] =>
             let q := fresh "q" in
             set (q := F e1 e2);
             repeat match goal with
                    | |- context [F ?e1' ?e2'] =>
                        replace (F e1' e2') with q by (subst q; f_equal; lia)
                    end;
             clearbody q
         end.

Ltac fold_done K :=
  eexists; split; [reflexivity|]; split;
  [ destruct (halo_kept_dims _ _ _ K) as (? & ? & _ & _);
    unfold shape, read; cbn [dB dC dH dW w_hn w_wn]; congruence | ].

Lemma fold_circular_spec (x : rtensor) (H W p q : nat) (out : window) (ph pw : Z) :
  dH x = H + 2 * p -> dW x = W + 2 * q ->
  1 <= p -> p <= H -> 1 <= q -> q <= W ->
  out = Win p H q W -> ph = Z.of_nat p -> pw = Z.of_nat q ->
  exists t,
    (
      x ← iadd x (sub_window out (sl_to ph) sl_all)
                 (tslice x (sl_from (- ph)) (sl pw (- pw)));
      x ← iadd x (sub_window out (sl_from (- ph)) sl_all)
                 (tslice x (sl_to ph) (sl pw (- pw)));
      x ← iadd x (sub_window out sl_all (sl_to pw))
                 (tslice x (sl ph (- ph)) (sl_from (- pw)));
      x ← iadd x (sub_window out sl_all (sl_from (- pw)))
                 (tslice x (sl ph (- ph)) (sl_to pw));
      x ← iadd x (sub_window out (sl_to ph) (sl_to pw))
                 (tslice x (sl_from (- ph)) (sl_from (- pw)));
      x ← iadd x (sub_window out (sl_from (- ph)) (sl_from (- pw)))
                 (tslice x (sl_to ph) (sl_to pw));
      x ← iadd x (sub_window out (sl_to ph) (sl_from (- pw)))
                 (tslice x (sl_from (- ph)) (sl_to pw));
      x ← iadd x (sub_window out (sl_from (- ph)) (sl_to pw))
                 (tslice x (sl_to ph) (sl_from (- pw)));
      Ok (read x out)) = Ok t /\
    shape t = (dB x, dC x, H, W) /\
    forall b c i j, b < dB x -> c < dC x -> i < H -> j < W ->
      at_ t b c i j
      = unpad_circular H p (fun u => unpad_circular W q (fun v => at_ x b c u v) j) i.
Proof.
  intros EH EW Hp1 Hp2 Hq1 Hq2 -> -> ->.
  assert (K0 : halo_kept x x (Win p H q W)) by (split; auto).
  fold_step EH EW K0 (Win p p q W)
    (fun (b c i j : nat) => at_ x b c (H + i) j); [from_halo K0|].
  fold_step EH EW K (Win H p q W)
    (fun (b c i j : nat) => at_ x b c (i - H) j); [from_halo K|].
  fold_step EH EW K1 (Win p H q q)
    (fun (b c i j : nat) => at_ x b c i (W + j)); [from_halo K1|].
  fold_step EH EW K2 (Win p H W q)
    (fun (b c i j : nat) => at_ x b c i (j - W)); [from_halo K2|].
  fold_step EH EW K3 (Win p p q q)
    (fun (b c i j : nat) => at_ x b c (H + i) (W + j)); [from_halo K3|].
  fold_step EH EW K4 (Win H p W q)
    (fun (b c i j : nat) => at_ x b c (i - H) (j - W)); [from_halo K4|].
  fold_step EH EW K5 (Win p p W q)
    (fun (b c i j : nat) => at_ x b c (H + i) (j - W)); [from_halo K5|].
  fold_step EH EW K6 (Win H p q q)
    (fun (b c i j : nat) => at_ x b c (i - H) (W + j)); [from_halo K6|].
  fold_done K7.
  intros b c i j Hb Hc Hi Hj.
  unfold read. cbn [at_ w_h0 w_w0].
  rewrite A6, A5, A4, A3, A2, A1, A0, A by assumption.
  clear - Hp1 Hp2 Hq1 Hq2 Hi Hj.
  unfold unpad_circular. rewrite !in_window_ranges. cbn [w_h0 w_hn w_w0 w_wn].
  range_as (i <? p); range_as (H - p <=? i);
  range_as (j <? q); range_as (W - q <=? j); range_true.
  same_entries (at_ x b c).
  destruct (i <? p), (H - p <=? i), (j <? q), (W - q <=? j); cbn [andb]; ring.
Qed.

Lemma fold_reflect_spec (x : rtensor) (H W p q : nat) (out : window) (ph pw : Z) :
  dH x = H + 2 * p -> dW x = W + 2 * q ->
  1 <= p -> p < H -> 1 <= q -> q < W ->
  out = Win p H q W -> ph = Z.of_nat p -> pw = Z.of_nat q ->
  exists t,
    (
      x ← iadd x (sub_window out (sl 1 (1 + ph)) sl_all)
                 (flip_h (tslice x (sl_to ph) (sl pw (- pw))));
      x ← iadd x (sub_window out (sl (- ph - 1) (-1)) sl_all)
                 (flip_h (tslice x (sl_from (- ph)) (sl pw (- pw))));
      x ← iadd x (sub_window out sl_all (sl 1 (1 + pw)))
                 (flip_w (tslice x (sl ph (- ph)) (sl_to pw)));
      x ← iadd x (sub_window out sl_all (sl (- pw - 1) (-1)))
                 (flip_w (tslice x (sl ph (- ph)) (sl_from (- pw))));
      x ← iadd x (sub_window out (sl 1 (1 + ph)) (sl 1 (1 + pw)))
                 (flip_hw (tslice x (sl_to ph) (sl_to pw)));
      x ← iadd x (sub_window out (sl (- ph - 1) (-1)) (sl (- pw - 1) (-1)))
                 (flip_hw (tslice x (sl_from (- ph)) (sl_from (- pw))));
      x ← iadd x (sub_window out (sl (- ph - 1) (-1)) (sl 1 (1 + pw)))
                 (flip_hw (tslice x (sl_from (- ph)) (sl_to pw)));
      x ← iadd x (sub_window out (sl 1 (1 + ph)) (sl (- pw - 1) (-1)))
                 (flip_hw (tslice x (sl_to ph) (sl_from (- pw))));
      Ok (read x out)) = Ok t /\
    shape t = (dB x, dC x, H, W) /\
    forall b c i j, b < dB x -> c < dC x -> i < H -> j < W ->
      at_ t b c i j
      = unpad_reflect H p (fun u => unpad_reflect W q (fun v => at_ x b c u v) j) i.
Proof.
  intros EH EW Hp1 Hp2 Hq1 Hq2 -> -> ->.
  assert (K0 : halo_kept x x (Win p H q W)) by (split; auto).
  fold_step EH EW K0 (Win (p + 1) p q W)
    (fun (b c i j : nat) => at_ x b c (2 * p - i) j); [from_halo K0|].
  fold_step EH EW K (Win (H - 1) p q W)
    (fun (b c i j : nat) => at_ x b c (2 * H + 2 * p - 2 - i) j); [from_halo K|].
  fold_step EH EW K1 (Win p H (q + 1) q)
    (fun (b c i j : nat) => at_ x b c i (2 * q - j)); [from_halo K1|].
  fold_step EH EW K2 (Win p H (W - 1) q)
    (fun (b c i j : nat) => at_ x b c i (2 * W + 2 * q - 2 - j)); [from_halo K2|].
  fold_step EH EW K3 (Win (p + 1) p (q + 1) q)
    (fun (b c i j : nat) => at_ x b c (2 * p - i) (2 * q - j)); [from_halo K3|].
  fold_step EH EW K4 (Win (H - 1) p (W - 1) q)
    (fun (b c i j : nat) => at_ x b c (2 * H + 2 * p - 2 - i) (2 * W + 2 * q - 2 - j)); [from_halo K4|].
  fold_step EH EW K5 (Win (H - 1) p (q + 1) q)
    (fun (b c i j : nat) => at_ x b c (2 * H + 2 * p - 2 - i) (2 * q - j)); [from_halo K5|].
  fold_step EH EW K6 (Win (p + 1) p (W - 1) q)
    (fun (b c i j : nat) => at_ x b c (2 * p - i) (2 * W + 2 * q - 2 - j)); [from_halo K6|].
  fold_done K7.
  intros b c i j Hb Hc Hi Hj.
  unfold read. cbn [at_ w_h0 w_w0].
  rewrite A6, A5, A4, A3, A2, A1, A0, A by assumption.
  clear - Hp1 Hp2 Hq1 Hq2 Hi Hj.
  unfold unpad_reflect. rewrite !in_window_ranges. cbn [w_h0 w_hn w_w0 w_wn].
  range_as ((1 <=? i) && (i <? 1 + p)); range_as ((H - p - 1 <=? i) && (i <? H - 1));
  range_as ((1 <=? j) && (j <? 1 + q)); range_as ((W - q - 1 <=? j) && (j <? W - 1));
  range_true.
  same_entries (at_ x b c).
  destruct ((1 <=? i) && (i <? 1 + p)), ((H - p - 1 <=? i) && (i <? H - 1)),
           ((1 <=? j) && (j <? 1 + q)), ((W - q - 1 <=? j) && (j <? W - 1));
    cbn [andb]; ring.
Qed.

Lemma fold_replicate_spec (x : rtensor) (H W p q : nat) (out : window) (ph pw : Z) :
  dH x = H + 2 * p -> dW x = W + 2 * q ->
  1 <= p -> 1 <= H -> 1 <= q -> 1 <= W ->
  out = Win p H q W -> ph = Z.of_nat p -> pw = Z.of_nat q ->
  exists t,
    (
      d ← row_window out 0 sl_all;
      x ← iadd x d (sum_h (tslice x (sl_to ph) (sl pw (- pw))));
      d ← row_window out (-1) sl_all;
      x ← iadd x d (sum_h (tslice x (sl_from (- ph)) (sl pw (- pw))));
      d ← col_window out sl_all 0;
      x ← iadd x d (sum_w (tslice x (sl ph (- ph)) (sl_to pw)));
      d ← col_window out sl_all (-1);
      x ← iadd x d (sum_w (tslice x (sl ph (- ph)) (sl_from (- pw))));
      d ← cell_window out 0 0;
      x ← iadd x d (sum_hw (tslice x (sl_to ph) (sl_to pw)));
      d ← cell_window out (-1) (-1);
      x ← iadd x d (sum_hw (tslice x (sl_from (- ph)) (sl_from (- pw))));
      d ← cell_window out (-1) 0;
      x ← iadd x d (sum_hw (tslice x (sl_from (- ph)) (sl_to pw)));
      d ← cell_window out 0 (-1);
      x ← iadd x d (sum_hw (tslice x (sl_to ph) (sl_from (- pw))));
      Ok (read x out)) = Ok t /\
    shape t = (dB x, dC x, H, W) /\
    forall b c i j, b < dB x -> c < dC x -> i < H -> j < W ->
      at_ t b c i j
      = unpad_replicate H p (fun u => unpad_replicate W q (fun v => at_ x b c u v) j) i.
Proof.
  intros EH EW Hp1 Hp2 Hq1 Hq2 -> -> ->.
  unfold row_window, col_window, cell_window. cbn [w_h0 w_hn w_w0 w_wn].
  rewrite !py_index_zero, !py_index_last by lia. cbn [mbind result_bind].
  assert (K0 : halo_kept x x (Win p H q W)) by (split; auto).
  fold_step EH EW K0 (Win p 1 q W)
    (fun (b c i j : nat) => sum_n p (fun s => at_ x b c s j)); [from_halo K0|].
  fold_step EH EW K (Win (p + (H - 1)) 1 q W)
    (fun (b c i j : nat) => sum_n p (fun s => at_ x b c (H + p + s) j)); [from_halo K|].
  fold_step EH EW K1 (Win p H q 1)
    (fun (b c i j : nat) => sum_n q (fun t => at_ x b c i t)); [from_halo K1|].
  fold_step EH EW K2 (Win p H (q + (W - 1)) 1)
    (fun (b c i j : nat) => sum_n q (fun t => at_ x b c i (W + q + t))); [from_halo K2|].
  fold_step EH EW K3 (Win p 1 q 1)
    (fun (b c i j : nat) => sum_n p (fun s => sum_n q (fun t => at_ x b c s t))); [from_halo K3|].
  fold_step EH EW K4 (Win (p + (H - 1)) 1 (q + (W - 1)) 1)
    (fun (b c i j : nat) => sum_n p (fun s => sum_n q (fun t => at_ x b c (H + p + s) (W + q + t)))); [from_halo K4|].
  fold_step EH EW K5 (Win (p + (H - 1)) 1 q 1)
    (fun (b c i j : nat) => sum_n p (fun s => sum_n q (fun t => at_ x b c (H + p + s) t))); [from_halo K5|].
  fold_step EH EW K6 (Win p 1 (q + (W - 1)) 1)
    (fun (b c i j : nat) => sum_n p (fun s => sum_n q (fun t => at_ x b c s (W + q + t)))); [from_halo K6|].
  fold_done K7.
  intros b c i j Hb Hc Hi Hj.
  unfold read. cbn [at_ w_h0 w_w0].
  rewrite A6, A5, A4, A3, A2, A1, A0, A by assumption.
  clear - Hp1 Hp2 Hq1 Hq2 Hi Hj.
  unfold unpad_replicate. rewrite !in_window_ranges. cbn [w_h0 w_hn w_w0 w_wn].
  range_as (i =? 0); range_as (i =? H - 1);
  range_as (j =? 0); range_as (j =? W - 1); range_true.
  destruct (i =? 0), (i =? H - 1), (j =? 0), (j =? W - 1); cbn [andb];
    rewrite ?sum_n_plus, ?sum_n_zero; ring.
Qed.

(** ** [conv_transpose] is the adjoint of [conv] *)

Lemma flat_index (b c C : nat) : c < C -> (b * C + c) / C = b /\ (b * C + c) mod C = c.
Proof.
  intros Hc. split.
  - rewrite Nat.add_comm, Nat.div_add by lia. rewrite Nat.div_small by lia. reflexivity.
  - rewrite Nat.add_comm, Nat.Div0.mod_add. apply Nat.mod_small, Hc.
Qed.

Ltac bools :=
  repeat match goal with
         | Hc : (_ && _) = true |- _ => apply andb_true_iff in Hc; destruct Hc
         | Hc : (_ <=? _) = true |- _ => apply Nat.leb_le in Hc
         | Hc : (_ <? _) = true |- _ => apply Nat.ltb_lt in Hc
         | Hc : (_ =? _) = true |- _ => apply Nat.eqb_eq in Hc
         | Hc : negb _ = true |- _ => apply negb_true_iff in Hc
         | Hc : (_ =? _) = false |- _ => apply Nat.eqb_neq in Hc
         end.

(** What [conv] computes when it returns: the valid correlation of the
    padded image with the expanded kernel. *)
Lemma conv_inv (x k cx : rtensor) (name : string) :
  conv x k name = Ok cx ->
  exists k' xp,
    expand_filter k (dB x) (dC x) = Ok k' /\
    (if String.eqb name "valid" then xp = x
     else F_pad x ((dW k - 1) / 2) ((dH k - 1) / 2) name = Ok xp) /\
    1 <= dB xp * dC xp /\ 1 <= dH k /\ dH k <= dH xp /\ 1 <= dW k /\ dW k <= dW xp /\
    shape cx = (dB xp, dC xp, dH xp - dH k + 1, dW xp - dW k + 1) /\
    forall b c i j, b < dB xp -> c < dC xp ->
      at_ cx b c i j
      = sum_n (dH k) (fun a => sum_n (dW k) (fun d =>
          (at_ xp b c (i + a) (j + d) * at_ k' b c a d)%Qc)).
Proof.
  intros H. unfold conv, shape in H.
  invert_bind H. rename v into k'. pose proof E as Ek.
  apply expand_filter_shape in E as (Eb & Ec & Eh & Ew).
  invert_bind H. rename v into xp.
  assert (Dims : dB xp = dB x /\ dC xp = dC x).
  { destruct (String.eqb name "valid"); simpl in E.
    - injection E as <-. auto.
    - apply F_pad_shape in E. tauto. }
  destruct Dims as (Pb & Pc).
  invert_bind H. unfold fold_batch in E0. invert_check E0. injection E0 as <-.
  invert_bind H. unfold fold_filter in E0. invert_check E0. injection E0 as <-.
  invert_bind H. unfold F_conv2d in E0. cbn [dB dC dH dW] in E0.
  invert_check E0. invert_check E0. injection E0 as <-.
  injection H as <-.
  bools. rewrite Eh, Ew in *.
  exists k', xp. split; [exact Ek|]. split.
  { destruct (String.eqb name "valid"); simpl in E; [injection E as <-; reflexivity | exact E]. }
  repeat (split; [assumption || lia|]).
  split; [reflexivity|].
  intros b c i j Hb Hlt. cbn [unfold_batch at_ dH dW].
  rewrite ?Eh, ?Ew. apply sum_n_ext. intros a _. apply sum_n_ext. intros d _.
  rewrite Ec, <- Pc.
  destruct (flat_index b c (dC xp) Hlt) as (-> & ->). reflexivity.
Qed.



Lemma fold_batch_ok (x : rtensor) :
  1 <= dH x -> 1 <= dW x ->
  fold_batch x = Ok (mkT 1 (dB x * dC x) (dH x) (dW x)
                       (fun _ g i j => at_ x (g / dC x) (g mod dC x) i j)).
Proof.
  intros Hh Hw. unfold fold_batch.
  replace (negb (dH x * dW x =? 0)) with true
    by (symmetry; apply negb_true_iff, Nat.eqb_neq; nia).
  reflexivity.
Qed.

Lemma fold_filter_ok (f : rtensor) :
  1 <= dB f * dC f -> 1 <= dH f -> 1 <= dW f ->
  fold_filter f = Ok (mkT (dB f * dC f) 1 (dH f) (dW f)
                        (fun g _ a d => at_ f (g / dC f) (g mod dC f) a d)).
Proof.
  intros HG Hh Hw. unfold fold_filter.
  replace (negb (dB f * dC f * dH f * dW f =? 0)) with true
    by (symmetry; apply negb_true_iff, Nat.eqb_neq; nia).
  reflexivity.
Qed.

Lemma F_conv_transpose2d_ok (y w : rtensor) (G : nat) :
  1 <= G -> dB y = 1 -> dC y = G -> dB w = G -> dC w = 1 ->
  1 <= dH w -> 1 <= dW w -> 1 <= dH y -> 1 <= dW y ->
  F_conv_transpose2d y w G
  = Ok (mkT 1 G (dH y + dH w - 1) (dW y + dW w - 1)
          (fun n g u v =>
             sum_n (dH w) (fun a => sum_n (dW w) (fun d =>
               if (a <=? u) && (u - a <? dH y) && (d <=? v) && (v - d <? dW y)
               then (at_ y n g (u - a) (v - d) * at_ w g 0 a d)%Qc
               else 0%Qc)))).
Proof.
  intros HG E1 E2 E3 E4 H1 H2 H3 H4. unfold F_conv_transpose2d.
  rewrite E1, E2, E3, E4, !Nat.eqb_refl.
  replace (1 <=? G) with true by (symmetry; apply Nat.leb_le; lia).
  replace (1 <=? dH w) with true by (symmetry; apply Nat.leb_le; lia).
  replace (1 <=? dW w) with true by (symmetry; apply Nat.leb_le; lia).
  replace (1 <=? dH y) with true by (symmetry; apply Nat.leb_le; lia).
  replace (1 <=? dW y) with true by (symmetry; apply Nat.leb_le; lia).
  reflexivity.
Qed.

Lemma inner_ext (s t t' : rtensor) :
  (forall b c i j, b < dB s -> c < dC s -> i < dH s -> j < dW s ->
     at_ t b c i j = at_ t' b c i j) ->
  inner s t = inner s t'.
Proof.
  intros Ht. unfold inner.
  apply sum_n_ext. intros b Hb. apply sum_n_ext. intros c Hc.
  apply sum_n_ext. intros i Hi. apply sum_n_ext. intros j Hj.
  rewrite Ht by assumption. reflexivity.
Qed.

(** Zero padding on one axis and the crop that undoes it. *)
Lemma zero_pad_adjoint (n p : nat) (X g : nat -> Qc) :
  sum_n (n + 2 * p)
    (fun u => ((if (p <=? u) && (u <? p + n) then X (u - p)%nat else 0) * g u)%Qc)
  = sum_n n (fun i => (X i * g (p + i)%nat)%Qc).
Proof.
  rewrite (sum_n_ext (n + 2 * p) _
             (fun u => if (p <=? u) && (u <? p + n) then (X (u - p)%nat * g u)%Qc else 0%Qc)).
  2:{ intros u _. destruct ((p <=? u) && (u <? p + n)); ring. }
  rewrite (sum_n_interval (n + 2 * p) p n (fun u => (X (u - p)%nat * g u)%Qc)) by lia.
  apply sum_n_ext. intros i _. replace (p + i - p) with i by lia. reflexivity.
Qed.

Lemma out_window (x : rtensor) (H W p q : nat) :
  dH x = H + 2 * p -> dW x = W + 2 * q -> 1 <= p -> 1 <= q ->
  sub_window (full_window x) (sl (Z.of_nat p) (- Z.of_nat p))
    (sl (Z.of_nat q) (- Z.of_nat q)) = Win p H q W.
Proof. intros EH EW Hp Hq. norm_unfold. rewrite EH, EW. norm_bounds. f_equal. all: lia. Qed.

Lemma conv_transpose_adjoint_names (x k y cx : rtensor) (nc nt : string) :
  In (nc, nt) adjoint_names ->
  conv x k nc = Ok cx ->
  shape y = shape cx ->
  (nc <> "valid" -> 3 <= dH k /\ 3 <= dW k) ->
  exists t, conv_transpose y k nt = Ok t /\ shape t = shape x /\ inner cx y = inner x t.
Proof.
  intros Hn Hconv Hy Hk.
  apply conv_inv in Hconv as (k' & xp & Ek & Hpad & HG & Hh1 & Hh2 & Hw1 & Hw2 & Scx & Acx).
  assert (Dxp : dB xp = dB x /\ dC xp = dC x).
  { destruct (String.eqb nc "valid").
    - subst xp. auto.
    - apply F_pad_shape in Hpad. tauto. }
  destruct Dxp as (DBp & DCp).
  rewrite Scx in Hy. unfold shape in Hy. injection Hy as YB YC YH YW.
  pose proof Ek as Ek'. rewrite <- DBp, <- DCp, <- YB, <- YC in Ek'.
  pose proof (expand_filter_shape _ _ _ _ Ek) as (KB & KC & KH & KW).
  unfold conv_transpose, shape.
  set (ph := (dH k - 1) / 2) in *. set (pw := (dW k - 1) / 2) in *.
  assert (Hp : nc <> "valid" -> 1 <= ph /\ 1 <= pw).
  { intros Hv. destruct (Hk Hv). split; apply Nat.div_le_lower_bound; lia. }
  clearbody ph pw. clear Hk.
  rewrite Ek'. cbn [mbind result_bind].
  rewrite (fold_batch_ok y) by lia. cbn [mbind result_bind].
  rewrite (fold_filter_ok k') by (rewrite ?KB, ?KC, ?KH, ?KW; lia).
  cbn [mbind result_bind].
  rewrite F_conv_transpose2d_ok;
    [ | cbn [dB dC dH dW]; rewrite ?KB, ?KC, ?KH, ?KW; (reflexivity || lia || congruence).. ].
  cbn [mbind result_bind dB dC dH dW].
  match goal with
  | |- context [unfold_batch ?b (dB y) (dC y)] => set (xb := unfold_batch b (dB y) (dC y))
  end.
  assert (Sxb : dB xb = dB x /\ dC xb = dC x /\ dH xb = dH xp /\ dW xb = dW xp).
  { subst xb. cbn [unfold_batch dB dC dH dW]. rewrite KH, KW. repeat split; lia. }
  destruct Sxb as (XB & XC & XH & XW).
  assert (Axb : forall b c u v, b < dB x -> c < dC x ->
            at_ xb b c u v
            = sum_n (dH k) (fun a => sum_n (dW k) (fun d =>
                if (a <=? u) && (u - a <? dH y) && (d <=? v) && (v - d <? dW y)
                then (at_ y b c (u - a) (v - d) * at_ k' b c a d)%Qc else 0%Qc))).
  { intros b c u v Hb Hc. subst xb. cbn [unfold_batch at_ dH dW].
    rewrite KH, KW, KC. apply sum_n_ext. intros a _. apply sum_n_ext. intros d _.
    assert (Hc' : c < dC y) by lia.
    replace (dC x) with (dC y) by lia.
    destruct (flat_index b c (dC y) Hc') as (-> & ->). reflexivity. }
  assert (IA : inner cx y
               = sum_n (dB x) (fun b => sum_n (dC x) (fun c =>
                   sum_n (dH xp) (fun u => sum_n (dW xp) (fun v =>
                     (at_ xp b c u v * at_ xb b c u v)%Qc))))).
  { unfold inner. unfold shape in Scx. injection Scx as -> -> -> ->.
    rewrite DBp, DCp.
    apply sum_n_ext. intros b Hb. apply sum_n_ext. intros c Hc.
    rewrite (sum_n_ext (dH xp - dH k + 1) _ (fun i => sum_n (dW xp - dW k + 1) (fun j =>
      (sum_n (dH k) (fun a => sum_n (dW k) (fun d =>
         at_ xp b c (i + a) (j + d) * at_ k' b c a d)) * at_ y b c i j)%Qc))).
    2:{ intros i _. apply sum_n_ext. intros j _. rewrite Acx by lia. reflexivity. }
    rewrite (correlate_adjoint (dH xp - dH k + 1) (dW xp - dW k + 1) (dH k) (dW k)
               (at_ xp b c) (at_ y b c) (at_ k' b c)).
    replace (dH xp - dH k + 1 + dH k - 1) with (dH xp) by lia.
    replace (dW xp - dW k + 1 + dW k - 1) with (dW xp) by lia.
    apply sum_n_ext. intros u _. apply sum_n_ext. intros v _.
    rewrite Axb by assumption. rewrite YH, YW. reflexivity. }
  clearbody xb. clear Acx Axb Ek Ek'.
  unfold adjoint_names in Hn. cbn [In] in Hn.
  destruct Hn as [Hn|[Hn|[Hn|[Hn|[Hn|[]]]]]]; injection Hn as <- <-.
  - (* valid *)
    change (String.eqb "valid" "valid") with true in Hpad. cbv iota in Hpad. subst xp.
    change (String.eqb "valid" "valid") with true. cbv iota.
    exists xb. split; [reflexivity|]. split; [unfold shape; congruence|].
    exact IA.
  - (* circular *)
    destruct Hp as (Hp & Hq); [discriminate|].
    change (String.eqb "circular" "valid") with false in Hpad. cbv iota in Hpad.
    unfold F_pad in Hpad. change (String.eqb "circular" "circular") with true in Hpad.
    cbv iota in Hpad. invert_check Hpad. injection Hpad as <-. bools.
    cbn [padded dB dC dH dW at_] in *.
    change (String.eqb "circular" "valid") with false.
    change (String.eqb "circular" "zero") with false.
    change (String.eqb "circular" "circular") with true. cbv iota.
    destruct (fold_circular_spec xb (dH x) (dW x) ph pw _ _ _
                 XH XW Hp ltac:(assumption) Hq ltac:(assumption)
                 (out_window xb (dH x) (dW x) ph pw XH XW Hp Hq) eq_refl eq_refl)
      as (t & Et & St & At).
    exists t. split; [exact Et|]. split.
    { unfold shape in St. injection St as -> -> -> ->. rewrite XB, XC. reflexivity. }
    rewrite IA. unfold inner.
    apply sum_n_ext. intros b Hb. apply sum_n_ext. intros c Hc.
    rewrite (pad_adjoint_2d (dH x) (dW x) (dH x + 2 * ph) (dW x + 2 * pw)
               (circular_src (dH x) ph) (circular_src (dW x) pw)
               (unpad_circular (dH x) ph) (unpad_circular (dW x) pw)
               (at_ x b c) (at_ xb b c)).
    2:{ intros X g. apply circular_pad_adjoint; assumption. }
    2:{ intros X g. apply circular_pad_adjoint; assumption. }
    apply sum_n_ext. intros i Hi. apply sum_n_ext. intros j Hj.
    rewrite At by (assumption || congruence). reflexivity.
  - (* reflect *)
    destruct Hp as (Hp & Hq); [discriminate|].
    change (String.eqb "reflect" "valid") with false in Hpad. cbv iota in Hpad.
    unfold F_pad in Hpad.
    change (String.eqb "reflect" "circular") with false in Hpad.
    change (String.eqb "reflect" "reflect") with true in Hpad.
    cbv iota in Hpad. invert_check Hpad. injection Hpad as <-. bools.
    cbn [padded dB dC dH dW at_] in *.
    change (String.eqb "reflect" "valid") with false.
    change (String.eqb "reflect" "zero") with false.
    change (String.eqb "reflect" "circular") with false.
    change (String.eqb "reflect" "reflect") with true. cbv iota.
    destruct (fold_reflect_spec xb (dH x) (dW x) ph pw _ _ _
                 XH XW Hp ltac:(assumption) Hq ltac:(assumption)
                 (out_window xb (dH x) (dW x) ph pw XH XW Hp Hq) eq_refl eq_refl)
      as (t & Et & St & At).
    exists t. split; [exact Et|]. split.
    { unfold shape in St. injection St as -> -> -> ->. rewrite XB, XC. reflexivity. }
    rewrite IA. unfold inner.
    apply sum_n_ext. intros b Hb. apply sum_n_ext. intros c Hc.
    rewrite (pad_adjoint_2d (dH x) (dW x) (dH x + 2 * ph) (dW x + 2 * pw)
               (reflect_src (dH x) ph) (reflect_src (dW x) pw)
               (unpad_reflect (dH x) ph) (unpad_reflect (dW x) pw)
               (at_ x b c) (at_ xb b c)).
    2:{ intros X g. apply reflect_pad_adjoint; assumption. }
    2:{ intros X g. apply reflect_pad_adjoint; assumption. }
    apply sum_n_ext. intros i Hi. apply sum_n_ext. intros j Hj.
    rewrite At by (assumption || congruence). reflexivity.
  - (* replicate *)
    destruct Hp as (Hp & Hq); [discriminate|].
    change (String.eqb "replicate" "valid") with false in Hpad. cbv iota in Hpad.
    unfold F_pad in Hpad.
    change (String.eqb "replicate" "circular") with false in Hpad.
    change (String.eqb "replicate" "reflect") with false in Hpad.
    change (String.eqb "replicate" "replicate") with true in Hpad.
    cbv iota in Hpad. invert_check Hpad. injection Hpad as <-. bools.
    cbn [padded dB dC dH dW at_] in *.
    change (String.eqb "replicate" "valid") with false.
    change (String.eqb "replicate" "zero") with false.
    change (String.eqb "replicate" "circular") with false.
    change (String.eqb "replicate" "reflect") with false.
    change (String.eqb "replicate" "replicate") with true. cbv iota.
    destruct (fold_replicate_spec xb (dH x) (dW x) ph pw _ _ _
                 XH XW Hp ltac:(assumption) Hq ltac:(assumption)
                 (out_window xb (dH x) (dW x) ph pw XH XW Hp Hq) eq_refl eq_refl)
      as (t & Et & St & At).
    exists t. split; [exact Et|]. split.
    { unfold shape in St. injection St as -> -> -> ->. rewrite XB, XC. reflexivity. }
    rewrite IA. unfold inner.
    apply sum_n_ext. intros b Hb. apply sum_n_ext. intros c Hc.
    rewrite (pad_adjoint_2d (dH x) (dW x) (dH x + 2 * ph) (dW x + 2 * pw)
               (replicate_src (dH x) ph) (replicate_src (dW x) pw)
               (unpad_replicate (dH x) ph) (unpad_replicate (dW x) pw)
               (at_ x b c) (at_ xb b c)).
    2:{ intros X g. apply replicate_pad_adjoint; assumption. }
    2:{ intros X g. apply replicate_pad_adjoint; assumption. }
    apply sum_n_ext. intros i Hi. apply sum_n_ext. intros j Hj.
    rewrite At by (assumption || congruence). reflexivity.
  - (* constant padding, zero crop *)
    destruct Hp as (Hp & Hq); [discriminate|].
    change (String.eqb "constant" "valid") with false in Hpad. cbv iota in Hpad.
    unfold F_pad in Hpad.
    change (String.eqb "constant" "circular") with false in Hpad.
    change (String.eqb "constant" "reflect") with false in Hpad.
    change (String.eqb "constant" "replicate") with false in Hpad.
    change (String.eqb "constant" "constant") with true in Hpad.
    cbv iota in Hpad. injection Hpad as <-.
    cbn [dB dC dH dW at_] in *.
    change (String.eqb "zero" "valid") with false.
    change (String.eqb "zero" "zero") with true. cbv iota.
    rewrite (out_window xb (dH x) (dW x) ph pw XH XW Hp Hq).
    eexists. split; [reflexivity|]. split.
    { unfold read. cbn [dB dC dH dW w_hn w_wn]. rewrite XB, XC. reflexivity. }
    rewrite IA. unfold inner, read. cbn [at_ w_h0 w_w0].
    apply sum_n_ext. intros b Hb. apply sum_n_ext. intros c Hc.
    rewrite (sum_n_ext (dH x + 2 * ph) _ (fun u => sum_n (dW x) (fun j =>
      ((if (ph <=? u) && (u <? ph + dH x) then at_ x b c (u - ph) j else 0)
       * at_ xb b c u (pw + j))%Qc))).
    2:{ intros u _.
        rewrite <- (zero_pad_adjoint (dW x) pw
                     (fun j => if (ph <=? u) && (u <? ph + dH x)
                               then at_ x b c (u - ph) j else 0%Qc)
                     (at_ xb b c u)).
        apply sum_n_ext. intros v _.
        destruct ((ph <=? u) && (u <? ph + dH x)); cbn [andb];
          destruct (pw <=? v); cbn [andb]; try reflexivity;
          destruct (v <? pw + dW x); reflexivity. }
    rewrite sum_n_swap.
    rewrite (sum_n_ext (dW x) _ (fun j => sum_n (dH x) (fun i =>
      (at_ x b c i j * at_ xb b c (ph + i) (pw + j))%Qc))).
    2:{ intros j _.
        apply (zero_pad_adjoint (dH x) ph (fun i => at_ x b c i j)
                 (fun u => at_ xb b c u (pw + j))). }
    apply sum_n_swap.
Qed.

(** X1 -- For each of the four padding policies, whenever [conv] returns
    on an image [x] and a kernel [k] whose height and width are at least 3
    (any kernel under the valid policy), [conv_transpose] returns on every
    [y] of the shape of that result, its result has the shape of [x], and
    the inner product of conv(x) with [y] equals the inner product of [x]
    with conv_transpose(y).  The extents of the kernel may be even, and its
    batch and channel extents may be one. *)
Theorem conv_transpose_adjoint (x k y cx : rtensor) (p : padding_mode) :
  conv x k (padding_name p) = Ok cx ->
  shape y = shape cx ->
  (p <> Valid -> 3 <= dH k /\ 3 <= dW k) ->
  exists t,
    conv_transpose y k (padding_name p) = Ok t /\
    shape t = shape x /\
    inner cx y = inner x t.
Proof.
  intros Hc Hy Hk.
  apply (conv_transpose_adjoint_names x k y cx (padding_name p) (padding_name p)).
  - unfold adjoint_names. destruct p; cbn [padding_name In]; tauto.
  - exact Hc.
  - exact Hy.
  - intros Hv. apply Hk. intros ->. apply Hv. reflexivity.
Qed.

(** X2 -- The branch of [conv_transpose] named zero is the adjoint of [conv]
    under the constant (zero) padding of [F.pad]: for a kernel whose height
    and width are at least 3, whenever conv(x, k, 'constant') returns,
    conv_transpose(y, k, 'zero') returns on every [y] of that shape, with
    the shape of [x] and the same inner products. *)
Theorem conv_constant_transpose_zero (x k y cx : rtensor) :
  conv x k "constant" = Ok cx ->
  shape y = shape cx ->
  3 <= dH k -> 3 <= dW k ->
  exists t,
    conv_transpose y k "zero" = Ok t /\
    shape t = shape x /\
    inner cx y = inner x t.
Proof.
  intros Hc Hy Hh Hw.
  apply (conv_transpose_adjoint_names x k y cx "constant" "zero").
  - unfold adjoint_names. cbn [In]. tauto.
  - exact Hc.
  - exact Hy.
  - intros _. split; assumption.
Qed.

(** * Concrete runs *)

(** ** The frequency-domain path against the spatial path *)

(** C5 -- On a 4 x 4 image with one white pixel at (0, 0) and the 3 x 3
    kernel whose only non-zero entry is its top-left one, the frequency-domain
    path (the transform of the image times [filter_fft] of the kernel,
    transformed back) and [conv] under circular padding both return a 4 x 4
    image with a single 1, but at different pixels: (3, 3) for the first,
    (1, 1) for the second.  The transform computes a convolution, [conv] a
    correlation: the kernel of the one is the flipped kernel of the other. *)
Theorem fft_blur_differs_from_conv :
  let x := delta_image 4 4 0 0 in
  let k := delta_image 3 3 0 0 in
  exists t s,
    fft_blur gauss_root x k = Ok t /\
    conv x k "circular" = Ok s /\
    shape t = (1, 1, 4, 4) /\ shape s = (1, 1, 4, 4) /\
    (forall i j, i < 4 -> j < 4 ->
       at_ t 0 0 i j = if (i =? 3) && (j =? 3) then 1%Qc else 0%Qc) /\
    (forall i j, i < 4 -> j < 4 ->
       at_ s 0 0 i j = if (i =? 1) && (j =? 1) then 1%Qc else 0%Qc).
Proof.
  cbv zeta. eexists. eexists.
  split; [reflexivity|]. split; [reflexivity|].
  split; [reflexivity|]. split; [reflexivity|].
  split; intros i j Hi Hj; apply Qc_eq_bool_correct;
    revert j Hj; apply forallb_n_spec; revert i Hi; apply forallb_n_spec;
    vm_compute; reflexivity.
Qed.

(** The two paths agree on a kernel that is its own flip. *)
Example fft_blur_agrees_on_symmetric_kernel :
  let x := mkT 1 1 4 4 (fun _ _ i j => Qc_of_nat (i * i + 3 * j)) in
  let k := mkT 1 1 3 3 (fun _ _ i j =>
             Qc_of_nat (1 + (if i =? 1 then 0 else 5) + (if j =? 1 then 0 else 3))) in
  exists t s,
    fft_blur gauss_root x k = Ok t /\
    conv x k "circular" = Ok s /\
    forall i j, i < 4 -> j < 4 -> at_ t 0 0 i j = at_ s 0 0 i j.
Proof.
  cbv zeta. eexists. eexists.
  split; [reflexivity|]. split; [reflexivity|].
  intros i j Hi Hj. apply Qc_eq_bool_correct.
  revert j Hj. apply forallb_n_spec. revert i Hi. apply forallb_n_spec.
  vm_compute. reflexivity.
Qed.

(** ** Witnesses *)

Lemma conv_even_kernel_shrinks_witness :
  exists y,
    conv (delta_image 16 16 8 8) (const_kernel 2 2 quarter) "circular" = Ok y /\
    dH y + 1 = 16 /\ dW y + 1 = 16.
Proof.
  eexists. split; [reflexivity|].
  destruct (conv_even_kernel_shrinks
              (delta_image 16 16 8 8) (const_kernel 2 2 quarter) _ Circular
              ltac:(discriminate) eq_refl) as [Hh Hw].
  split; [apply Hh | apply Hw]; reflexivity.
Defined.

Lemma Blur_apply_reads_unassigned_filter_witness :
  exists self,
    Blur_init ∅ (VParameter (const_kernel 2 2 quarter)) "circular" "cpu" = Ok self /\
    Blur_A self (delta_image 16 16 8 8) = Err (AttributeError "filter") /\
    Blur_A_adjoint self (delta_image 16 16 8 8) = Err (AttributeError "filter").
Proof.
  eexists. split; [reflexivity|].
  apply (Blur_apply_reads_unassigned_filter
           ∅ (VParameter (const_kernel 2 2 quarter)) "circular" "cpu");
    reflexivity.
Defined.

Lemma constructors_filter_arguments_witness :
  Downsampling_init gauss_root unit_exp no_rotation ∅ [1; 16; 16]
    (VTensor (const_kernel 2 2 quarter)) 2 "cpu" "circular"
  = Err (AttributeError "params") /\
  Blur_init ∅ (VTensor (const_kernel 2 2 quarter)) "circular" "cpu"
  = Err (AttributeError "params") /\
  is_ok (Blur_init ∅ (VStr "no such preset") "circular" "cpu") = true.
Proof.
  destruct (constructors_filter_arguments gauss_root unit_exp no_rotation ∅
              (lookup_empty "params"))
    as (HD & HB & _ & HC).
  split; [apply HD; reflexivity|].
  split; [apply HB; reflexivity|].
  apply HC. left. reflexivity.
Defined.

Lemma Downsampling_prox_l2_missing_Fh_witness :
  exists self,
    Downsampling_init gauss_root unit_exp no_rotation ∅ [1; 4; 4] VNone 2 "cpu" "circular"
    = Ok self /\
    Downsampling_prox_l2 gauss_root no_base_prox self (zeros 1 1 4 4) (zeros 1 1 2 2) 1 true
    = Err (AttributeError "Fh").
Proof.
  pose proof (fun self H =>
                proj2 (Downsampling_prox_l2_missing_Fh gauss_root unit_exp no_rotation ∅
                         no_base_prox [1; 4; 4] 2 "cpu" self (zeros 1 1 4 4)
                         (zeros 1 1 2 2) 1%Qc (lookup_empty "Fh") H)) as T.
  eexists. split; [reflexivity|].
  eapply T; reflexivity.
Defined.



Lemma Diffraction_step_reads_unassigned_amplitude_witness :
  exists g,
    Diffraction_init same_sqrt [1; 16; 16] ["Z4"; "Z11"] (Q2Qc (1 # 5)) (Q2Qc (3 # 20))
      (16, 16) = Ok g /\
    Diffraction_step gauss_root unit_exp unit_Cexp zero_noise g 0 1
    = Err (AttributeError "max_zernike_amplitude").
Proof.
  assert (Hi : exists g,
             Diffraction_init same_sqrt [1; 16; 16] ["Z4"; "Z11"] (Q2Qc (1 # 5))
               (Q2Qc (3 # 20)) (16, 16) = Ok g)
    by (eexists; reflexivity).
  destruct Hi as [g Hi]. exists g. split; [exact Hi|].
  apply (Diffraction_step_reads_unassigned_amplitude gauss_root unit_exp same_sqrt unit_Cexp
           zero_noise _ _ _ _ _ g 0 1 Hi).
  simpl. lia.
Defined.

Lemma f_matern_length_witness :
  exists f,
    f_matern gauss_root unit_exp same_Csqrt zero_noise (motion_steps 1000) 0 None None = Ok f /\
    dH f = 1 /\ dW f = 159 /\ dW (demean f) = 159.
Proof.
  destruct (f_matern_length gauss_root unit_exp same_Csqrt zero_noise
              (motion_steps 1000) 0 None None 1 [1; 1] eq_refl ltac:(simpl; lia))
    as (f & Hf & Hh & Hw & Hd & _ & _).
  assert (E : floordiv_two_pi 1000 = 159) by (vm_compute; reflexivity).
  simpl mg_n_steps in Hw. rewrite E in Hw.
  exists f. split; [exact Hf|]. split; [exact Hh|]. split; [exact Hw|].
  rewrite Hd. exact Hw.
Defined.

Lemma Diffraction_init_index_38_witness :
  Diffraction_init same_sqrt [1; 16; 16] ["Z4"; "Z38"] (Q2Qc (1 # 5)) (Q2Qc (3 # 20)) (256, 256)
  = Err (IndexError "index out of range").
Proof.
  apply (Diffraction_init_index_38 same_sqrt [1; 16; 16] ["Z4"; "Z38"] _ _ _
           (16, 16) [4; 38]%Z).
  - reflexivity.
  - reflexivity.
  - right. left. reflexivity.
  - intros i [<-|[<-|[]]]; lia.
Defined.

Lemma conv_transpose_adjoint_witness :
  exists cx t,
    conv (delta_image 4 4 1 2) (const_kernel 3 3 quarter) "reflect" = Ok cx /\
    conv_transpose cx (const_kernel 3 3 quarter) "reflect" = Ok t /\
    shape t = shape (delta_image 4 4 1 2) /\
    inner cx cx = inner (delta_image 4 4 1 2) t.
Proof.
  assert (Hc : exists cx,
             conv (delta_image 4 4 1 2) (const_kernel 3 3 quarter) "reflect" = Ok cx)
    by (eexists; reflexivity).
  destruct Hc as [cx Hc].
  destruct (conv_transpose_adjoint (delta_image 4 4 1 2) (const_kernel 3 3 quarter)
              cx cx Reflect Hc eq_refl) as (t & Et & St & It).
  - intros _. simpl. lia.
  - exists cx, t. auto.
Defined.

Lemma conv_constant_transpose_zero_witness :
  exists cx t,
    conv (delta_image 4 4 1 2) (const_kernel 3 4 quarter) "constant" = Ok cx /\
    conv_transpose cx (const_kernel 3 4 quarter) "zero" = Ok t /\
    shape t = shape (delta_image 4 4 1 2) /\
    inner cx cx = inner (delta_image 4 4 1 2) t.
Proof.
  assert (Hc : exists cx,
             conv (delta_image 4 4 1 2) (const_kernel 3 4 quarter) "constant" = Ok cx)
    by (eexists; reflexivity).
  destruct Hc as [cx Hc].
  destruct (conv_constant_transpose_zero (delta_image 4 4 1 2) (const_kernel 3 4 quarter)
              cx cx Hc eq_refl) as (t & Et & St & It).
  - simpl. lia.
  - simpl. lia.
  - exists cx, t. auto.
Defined.

(** ** Counterexamples and further runs *)

(** C10 -- [Blur] is constructed without complaint with [None], with a
    string that names no filter, and with an integer: its constructor has
    no last branch that rejects them. *)
Lemma Blur_init_completes_without_filter :
  is_ok (Blur_init ∅ VNone "circular" "cpu") = true /\
  is_ok (Blur_init ∅ (VStr "no such preset") "circular" "cpu") = true /\
  is_ok (Blur_init ∅ (VInt 7) "circular" "cpu") = true.
Proof. repeat split. Qed.

(** With six steps a trajectory has no point (6 // (2 pi) = 0): the
    histogram is empty, its sum is zero, and the division that normalises
    the kernel has no value. *)
Example Motion_step_without_points :
  Motion_step gauss_root unit_exp same_Csqrt zero_noise (motion_steps 6) 0 1 None None
  = Err NotANumber.
Proof.
  vm_compute. reflexivity.
Qed.

(** The example of the class documentation, a shape of two entries: the
    constructor accepts it and [step] fails on [self.shape[-3]]. *)
Example Diffraction_step_documented_shape :
  exists g,
    Diffraction_init same_sqrt [16; 16] ["Z4"; "Z11"] (Q2Qc (1 # 5)) (Q2Qc (3 # 20))
      (16, 16) = Ok g /\
    Diffraction_step gauss_root unit_exp unit_Cexp zero_noise g 0 1
    = Err (IndexError "tuple index out of range").
Proof. eexists. split; reflexivity. Qed.

(** The [bilinear] preset with factor 2 is a 4 x 4 kernel: on an 8 x 8
    image the adjoint is 9 x 9 (the kernel is not extended to an odd size),
    and [prox_l2] fails when it adds [z / gamma] to it. *)
Example Downsampling_prox_l2_bilinear_preset :
  exists self,
    Downsampling_init gauss_root unit_exp no_rotation ∅ [1; 8; 8] (VStr "bilinear")
      2 "cpu" "circular" = Ok self /\
    match Downsampling_A_adjoint self (zeros 1 1 4 4) with
    | Ok adj => shape adj = (1, 1, 9, 9)
    | Err _ => False
    end /\
    Downsampling_prox_l2 gauss_root no_base_prox self (zeros 1 1 8 8) (zeros 1 1 4 4) 1 true
    = Err (RuntimeError "The size of tensor a must match the size of tensor b").
Proof.
  eexists. split; [reflexivity|]. split; vm_compute; reflexivity.
Qed.
